(** * pgkons: the navigation engine of the interactive Postgres explorer

    A shallow embedding of [cmd/pgkons/main.go] (the [Runner], its data
    providers, [selecter], [selectSize], [overwritePrevLine]) and of the
    state file (the [StateFn] type, the menu tree and [selectState]).

    The program talks to three things that are not part of the repository:
    the terminal prompt (promptui), the database (sqlx) and the window
    size ioctl.  They are modelled by an oracle that is consulted once per
    call; everything the program hands to them is recorded in a trace. *)

From Stdlib Require Import String Ascii List ZArith Lia Bool Arith.
Import ListNotations.
Open Scope string_scope.

(* ================================================================= *)
(** ** The parts of Go's [strings] package the program uses *)

(** Go strings are byte sequences; [string] is a list of bytes. *)

Definition isASCIIByte (c : ascii) : bool := (nat_of_ascii c <? 128)%nat.

Definition isUpperByte (c : ascii) : bool :=
  ((65 <=? nat_of_ascii c) && (nat_of_ascii c <=? 90))%nat.

(** ['A' <= c && c <= 'Z'] then [c += 'a' - 'A']. *)
Definition lowerByte (c : ascii) : ascii :=
  if isUpperByte c then ascii_of_nat (nat_of_ascii c + 32) else c.

Fixpoint isASCII (s : string) : bool :=
  match s with
  | EmptyString => true
  | String c s' => isASCIIByte c && isASCII s'
  end.

Fixpoint mapBytes (f : ascii -> ascii) (s : string) : string :=
  match s with
  | EmptyString => EmptyString
  | String c s' => String (f c) (mapBytes f s')
  end.

(** [strings.HasPrefix(s, prefix)]. *)
Fixpoint HasPrefix (s prefix : string) : bool :=
  match prefix with
  | EmptyString => true
  | String p prefix' =>
      match s with
      | EmptyString => false
      | String c s' => Ascii.eqb c p && HasPrefix s' prefix'
      end
  end.

(** [strings.Contains(s, substr)]: [substr] starts at some offset of [s]. *)
Fixpoint Contains (s substr : string) : bool :=
  HasPrefix s substr ||
  match s with
  | EmptyString => false
  | String _ s' => Contains s' substr
  end.

(** [strings.Replace(s, old, new, -1)] for a one-byte [old]: every
    occurrence of the byte is replaced. *)
Fixpoint ReplaceByte (s : string) (old : ascii) (new : string) : string :=
  match s with
  | EmptyString => EmptyString
  | String c s' =>
      if Ascii.eqb c old then new ++ ReplaceByte s' old new
      else String c (ReplaceByte s' old new)
  end.

(** [strings.Count(s, sep)] for a one-byte [sep]. *)
Fixpoint CountByte (s : string) (sep : ascii) : Z :=
  match s with
  | EmptyString => 0%Z
  | String c s' =>
      ((if Ascii.eqb c sep then 1 else 0) + CountByte s' sep)%Z
  end.

Definition space : ascii := " "%char.
Definition newline : ascii := ascii_of_nat 10.
Definition tab : ascii := ascii_of_nat 9.
Definition dq : string := String (ascii_of_nat 34) EmptyString.
Definition nl : string := String newline EmptyString.
Definition ht : string := String tab EmptyString.

(** Go's [int] on the 64-bit targets the program is built for. *)
Definition wrapInt (z : Z) : Z :=
  ((z + 2 ^ 63) mod 2 ^ 64 - 2 ^ 63)%Z.

(* ================================================================= *)
(** ** UTF-8: what [strings.ToLower] does to a string that is not ASCII

    [strings.ToLower] hands a string with a byte from 0x80 on to
    [strings.Map(unicode.ToLower, s)].  [Map] ranges over the runes of
    the string and writes the mapped runes; the parts of [unicode/utf8]
    it rests on are written out here. *)

(** A byte as a number, and back. *)
Definition byteOf (c : ascii) : Z := Z.of_nat (nat_of_ascii c).
Definition toByte (z : Z) : ascii := ascii_of_nat (Z.to_nat (z mod 256)).

Definition RuneError : Z := 0xFFFD%Z.
Definition MaxRune : Z := 0x10FFFF%Z.
Definition locb : Z := 0x80%Z.
Definition hicb : Z := 0xBF%Z.

(** The table [first] together with [acceptRanges]: for a lead byte, the
    length of its sequence and the range its second byte has to be in;
    [None] for the bytes that start no sequence (0x80..0xC1 and
    0xF5..0xFF). *)
Definition first (b : Z) : option (nat * Z * Z) :=
  (if b <? 0xC2 then None
   else if b <? 0xE0 then Some (2%nat, locb, hicb)
   else if b =? 0xE0 then Some (3%nat, 0xA0, hicb)
   else if b <? 0xED then Some (3%nat, locb, hicb)
   else if b =? 0xED then Some (3%nat, locb, 0x9F)
   else if b <? 0xF0 then Some (3%nat, locb, hicb)
   else if b =? 0xF0 then Some (4%nat, 0x90, hicb)
   else if b <? 0xF4 then Some (4%nat, locb, hicb)
   else if b =? 0xF4 then Some (4%nat, locb, 0x8F)
   else None)%Z.

Definition continues (lo hi : Z) (c : ascii) : bool :=
  ((lo <=? byteOf c) && (byteOf c <=? hi))%Z.

(** [utf8.DecodeRuneInString]: the rune at the start of [s] and its
    width; [(RuneError, 1)] where the bytes are no encoding of a rune,
    also where the string ends inside a sequence. *)
Definition DecodeRuneInString (s : string) : Z * nat :=
  match s with
  | EmptyString => (RuneError, 0%nat)
  | String c0 s1 =>
    let s0 := byteOf c0 in
    if (s0 <? 0x80)%Z then (s0, 1%nat) else
    match first s0 with
    | None => (RuneError, 1%nat)
    | Some (sz, lo, hi) =>
      match s1 with
      | EmptyString => (RuneError, 1%nat)
      | String c1 s2 =>
        if negb (continues lo hi c1) then (RuneError, 1%nat) else
        if (sz <=? 2)%nat then
          (Z.lor (Z.shiftl (Z.land s0 0x1F) 6) (Z.land (byteOf c1) 0x3F),
           2%nat)
        else
        match s2 with
        | EmptyString => (RuneError, 1%nat)
        | String c2 s3 =>
          if negb (continues locb hicb c2) then (RuneError, 1%nat) else
          if (sz <=? 3)%nat then
            (Z.lor (Z.lor (Z.shiftl (Z.land s0 0x0F) 12)
                          (Z.shiftl (Z.land (byteOf c1) 0x3F) 6))
                   (Z.land (byteOf c2) 0x3F),
             3%nat)
          else
          match s3 with
          | EmptyString => (RuneError, 1%nat)
          | String c3 _ =>
            if negb (continues locb hicb c3) then (RuneError, 1%nat) else
            (Z.lor (Z.lor (Z.lor (Z.shiftl (Z.land s0 0x07) 18)
                                 (Z.shiftl (Z.land (byteOf c1) 0x3F) 12))
                          (Z.shiftl (Z.land (byteOf c2) 0x3F) 6))
                   (Z.land (byteOf c3) 0x3F),
             4%nat)
          end
        end
      end
    end
  end.

(** [for _, c := range s]: the runes of [s] with their widths.  [skip]
    counts the bytes still to pass of the rune decoded last. *)
Fixpoint rangeString (skip : nat) (s : string) : list (Z * nat) :=
  match s with
  | EmptyString => []
  | String _ s' =>
      match skip with
      | S k => rangeString k s'
      | O =>
          let rw := DecodeRuneInString s in
          rw :: rangeString (snd rw - 1) s'
      end
  end.

(** A byte that starts no rune decodes to [(RuneError, 1)]. *)
Definition isInvalidByte (rw : Z * nat) : bool :=
  (fst rw =? RuneError)%Z && (snd rw =? 1)%nat.

Definition validRunes (l : list (Z * nat)) : bool :=
  forallb (fun rw => negb (isInvalidByte rw)) l.

(** [utf8.ValidString]: no byte of [s] decodes to [(RuneError, 1)]. *)
Definition ValidString (s : string) : bool :=
  validRunes (rangeString 0 s).

(** [utf8.AppendRune], on [uint32(r)]: surrogates and values above
    [MaxRune] are written as [RuneError]. *)
Definition AppendRune (r : Z) : string :=
  let i := (r mod 2 ^ 32)%Z in
  let cont (z : Z) := toByte (Z.lor 0x80 (Z.land z 0x3F)) in
  if (i <=? 0x7F)%Z then String (toByte i) ""
  else if (i <=? 0x7FF)%Z then
    String (toByte (Z.lor 0xC0 (Z.shiftr i 6))) (String (cont i) "")
  else if ((MaxRune <? i) || (0xD800 <=? i) && (i <=? 0xDFFF))%Z then
    String (toByte 0xEF) (String (toByte 0xBF) (String (toByte 0xBD) ""))
  else if (i <=? 0xFFFF)%Z then
    String (toByte (Z.lor 0xE0 (Z.shiftr i 12)))
      (String (cont (Z.shiftr i 6)) (String (cont i) ""))
  else
    String (toByte (Z.lor 0xF0 (Z.shiftr i 18)))
      (String (cont (Z.shiftr i 12))
         (String (cont (Z.shiftr i 6)) (String (cont i) ""))).

(** [strings.Map]: every rune of [s] is mapped and written, a negative
    result is dropped.  A byte that starts no rune is ranged over as
    [RuneError], so what is written for it is the encoding of the
    mapped [RuneError] (as of Go 1.12, whose [Map] returns valid UTF-8
    also where nothing else changes). *)
Definition Map (mapping : Z -> Z) (s : string) : string :=
  fold_right
    (fun rw out =>
       let r := mapping (fst rw) in
       ((if (r <? 0)%Z then "" else AppendRune r) ++ out)%string)
    "" (rangeString 0 s).

(** [unicode.ToLower]: the letters A to Z of ASCII are mapped by
    arithmetic; the runes above ASCII go through the case tables, which
    are left open here. *)
Definition unicode_ToLower (caseTables : Z -> Z) (r : Z) : Z :=
  if (r <=? 0x7F)%Z then
    if ((65 <=? r) && (r <=? 90))%Z then (r + 32)%Z else r
  else caseTables r.

(** The first [n] bytes of [s], as far as it has them, are no spaces. *)
Fixpoint spaceFree (n : nat) (s : string) : bool :=
  match n, s with
  | S k, String c s' => negb (Ascii.eqb c space) && spaceFree k s'
  | _, _ => true
  end.

Definition isSpaceRune (rw : Z * nat) : bool :=
  (fst rw =? 32)%Z && (snd rw =? 1)%nat.

(* ================================================================= *)
(** ** Errors *)

(** The [error] values that can flow through the program: the sentinels
    the program itself compares against or that its libraries export,
    and the errors the database driver and the terminal produce. *)
Inductive error : Type :=
| context_Canceled
| context_DeadlineExceeded
| errFinished                      (* errors.New("program to exit") *)
| promptui_ErrInterrupt
| promptui_ErrEOF
| sql_ErrNoRows
| driver_Error (msg : string)      (* any other database failure *)
| terminal_Error (msg : string).   (* any other prompt failure *)

Definition error_eqb (a b : error) : bool :=
  match a, b with
  | context_Canceled, context_Canceled => true
  | context_DeadlineExceeded, context_DeadlineExceeded => true
  | errFinished, errFinished => true
  | promptui_ErrInterrupt, promptui_ErrInterrupt => true
  | promptui_ErrEOF, promptui_ErrEOF => true
  | sql_ErrNoRows, sql_ErrNoRows => true
  | driver_Error m, driver_Error m' => String.eqb m m'
  | terminal_Error m, terminal_Error m' => String.eqb m m'
  | _, _ => false
  end.

(** [x == nil] on a nilable value. *)
Definition isNil {A : Type} (x : option A) : bool :=
  match x with None => true | Some _ => false end.

(* ================================================================= *)
(** ** Rows and the structs they are scanned into *)

(** A result row as the driver delivers it: column name and text. *)
Definition RawRow : Type := list (string * string).

Fixpoint column (row : RawRow) (name : string) : string :=
  match row with
  | [] => ""
  | (k, v) :: row' => if String.eqb k name then v else column row' name
  end.

Record schema : Type := mkSchema {
  schema_Name : string;          (* db:"schema_name" *)
  schema_Owner : string;         (* db:"schema_owner" *)
  schema_CatalogName : string    (* db:"catalog_name" *)
}.

Record pgTable : Type := mkPgTable {
  pgTable_Catalog : string;      (* db:"table_catalog" *)
  pgTable_Name : string;         (* db:"table_name" *)
  pgTable_Owner : string;        (* db:"table_type" *)
  pgTable_Schema : string;       (* db:"table_schema" *)
  pgTable_Size : string          (* db:"table_data_size" *)
}.

Record view : Type := mkView {
  view_Name : string;                   (* db:"view_name" *)
  view_Definition : string;             (* db:"definition" *)
  view_IsPopulated : bool;              (* db:"ispopulated" *)
  view_Owner : string;                  (* db:"owner" *)
  view_ViewSchema : string;             (* db:"schema_name" *)
  view_ReferencedTableSchema : string;  (* db:"referenced_table_schema" *)
  view_ReferencedTableName : string     (* db:"referenced_table_name" *)
}.

(** The anonymous structs the Stats providers scan into.  Numeric
    columns are only ever rendered, so they keep the driver's text. *)
Record schemaSummary : Type := mkSchemaSummary {
  summary_Schema : string;       (* db:"table_schema" *)
  summary_TableCount : string    (* db:"tables" *)
}.

Record indexedTable : Type := mkIndexedTable {
  indexed_pgTable : pgTable;
  indexed_DataSize : string;     (* db:"data_size" *)
  indexed_ExternalSize : string  (* db:"external_size" *)
}.

Record rowsTable : Type := mkRowsTable {
  rows_pgTable : pgTable;
  rows_Rows : string             (* db:"rows" *)
}.

Record rowGroup : Type := mkRowGroup {
  group_RowCount : string;       (* db:"row_count" *)
  group_TableCount : string      (* db:"table_count" *)
}.

Record columnFrequency : Type := mkColumnFrequency {
  column_Name : string;          (* db:"column_name" *)
  column_Tables : string;        (* db:"tables" *)
  column_PercentTables : string  (* db:"percent_tables" *)
}.

Definition scanSchema (r : RawRow) : schema :=
  mkSchema (column r "schema_name") (column r "schema_owner")
           (column r "catalog_name").

Definition scanPgTable (r : RawRow) : pgTable :=
  mkPgTable (column r "table_catalog") (column r "table_name")
            (column r "table_type") (column r "table_schema")
            (column r "table_data_size").

Definition scanView (r : RawRow) : view :=
  mkView (column r "view_name") (column r "definition")
         (String.eqb (column r "ispopulated") "true") (column r "owner")
         (column r "schema_name") (column r "referenced_table_schema")
         (column r "referenced_table_name").

Definition scanSchemaSummary (r : RawRow) : schemaSummary :=
  mkSchemaSummary (column r "table_schema") (column r "tables").

Definition scanIndexedTable (r : RawRow) : indexedTable :=
  mkIndexedTable (scanPgTable r) (column r "data_size")
                 (column r "external_size").

Definition scanRowsTable (r : RawRow) : rowsTable :=
  mkRowsTable (scanPgTable r) (column r "rows").

Definition scanRowGroup (r : RawRow) : rowGroup :=
  mkRowGroup (column r "row_count") (column r "table_count").

Definition scanColumnFrequency (r : RawRow) : columnFrequency :=
  mkColumnFrequency (column r "column_name") (column r "tables")
                    (column r "percent_tables").

(** What [Items interface{}] can hold: one boxed value per list entry.
    A menu entry is shown through its [Name] only. *)
Inductive Item : Type :=
| ItemState (name : string)
| ItemSchema (s : schema)
| ItemTable (t : pgTable)
| ItemView (v : view)
| ItemSummary (s : schemaSummary)
| ItemIndexed (t : indexedTable)
| ItemRows (t : rowsTable)
| ItemGroup (g : rowGroup)
| ItemColumn (c : columnFrequency)
| ItemString (s : string).

(* ================================================================= *)
(** ** promptui's [Select] and [SelectTemplates], as far as they are set *)

Record SelectTemplates : Type := mkTemplates {
  Label : string;
  Active : string;
  Inactive : string;
  Selected : string;
  Details : string
}.

(** [list.Searcher]: [func(input string, index int) bool].  The closures
    of the program index a slice; [None] is Go's index-out-of-range
    panic. *)
Definition Searcher : Type := string -> nat -> option bool.

Record Select : Type := mkSelect {
  sel_HideHelp : bool;
  sel_Label : string;
  sel_Items : list Item;
  sel_Searcher : option Searcher;
  sel_Size : Z;
  sel_StartInSearchMode : bool;
  sel_Templates : option SelectTemplates
}.

(* ================================================================= *)
(** ** The outside world *)

(** [context.Context] values the program builds and passes on. *)
Inductive Context : Type :=
| Background
| WithCancel (parent : Context)
| WithTimeout (parent : Context) (seconds : Z).

(** What the user does at a prompt. *)
Inductive Answer : Type :=
| Chosen (cursor : nat)          (* Enter on the item under the cursor *)
| Interrupted                    (* Ctrl-C *)
| EndOfInput                     (* Ctrl-D *)
| PromptFailed (msg : string).   (* the prompt could not be run *)

(** What the database answers to a query. *)
Inductive QueryResult : Type :=
| Rows (rows : list RawRow)
| QueryCanceled
| QueryTimedOut
| QueryFailed (msg : string).

(** What the TIOCGWINSZ ioctl answers. *)
Inductive WinsizeResult : Type :=
| Winsize (col row : Z)
| WinsizeFailed (msg : string).

Record Oracle : Type := mkOracle {
  prompt : nat -> Answer;
  database : nat -> QueryResult;
  tty : nat -> WinsizeResult
}.

(** Everything the program did to the outside, most recent first. *)
Inductive Event : Type :=
| EvSelect (sel : Select) (a : Answer)
| EvQuery (ctx : Context) (query : string) (res : QueryResult)
| EvPrint (s : string).

(** [clock] counts the calls made to the outside so far; the oracle is
    read at the clock. *)
Record World : Type := mkWorld {
  env : Oracle;
  clock : nat;
  trace : list Event
}.

Definition tick (w : World) : World :=
  mkWorld (env w) (S (clock w)) (trace w).

Definition emit (ev : Event) (w : World) : World :=
  mkWorld (env w) (S (clock w)) (ev :: trace w).

(** A computation either completes with a value or panics. *)
Inductive Res (A : Type) : Type :=
| Ok (a : A) (w : World)
| Panic (msg : string) (w : World).
Arguments Ok {A} a w.
Arguments Panic {A} msg w.

Definition M (A : Type) : Type := World -> Res A.

Definition ret {A : Type} (a : A) : M A := fun w => Ok a w.

Definition bind {A B : Type} (m : M A) (k : A -> M B) : M B :=
  fun w =>
    match m w with
    | Ok a w' => k a w'
    | Panic msg w' => Panic msg w'
    end.

Definition panic {A : Type} (msg : string) : M A := fun w => Panic msg w.

Notation "x <- c1 ;; c2" := (bind c1 (fun x => c2))
  (at level 61, c1 at next level, right associativity).
Notation "' pat <- c1 ;; c2" :=
  (bind c1 (fun x => match x with pat => c2 end))
  (at level 61, pat pattern, c1 at next level, right associativity).

Definition selectError (a : Answer) : option error :=
  match a with
  | Chosen _ => None
  | Interrupted => Some promptui_ErrInterrupt
  | EndOfInput => Some promptui_ErrEOF
  | PromptFailed msg => Some (terminal_Error msg)
  end.

Definition queryError (q : QueryResult) : option error :=
  match q with
  | Rows _ => None
  | QueryCanceled => Some context_Canceled
  | QueryTimedOut => Some context_DeadlineExceeded
  | QueryFailed msg => Some (driver_Error msg)
  end.

(** [sel.Run()]: the prompt blocks until the user answers.  On Enter the
    index is the cursor's, which promptui keeps on an item of the list. *)
Definition Select_Run (sel : Select) : M (nat * option error) :=
  fun w =>
    let a := prompt (env w) (clock w) in
    let index :=
      match a with
      | Chosen cursor => Nat.min cursor (length (sel_Items sel) - 1)
      | _ => 0%nat
      end in
    Ok (index, selectError a) (emit (EvSelect sel a) w).

(** [db.SelectContext(ctx, &dest, query)], before the rows are scanned
    into [dest].  [query] names the SQL text, which the program only
    passes on. *)
Definition SelectContext (ctx : Context) (query : string)
  : M (list RawRow * option error) :=
  fun w =>
    let res := database (env w) (clock w) in
    let rows := match res with Rows rows => rows | _ => [] end in
    Ok (rows, queryError res) (emit (EvQuery ctx query res) w).

(** [db.GetContext(ctx, &dest, query)]: the first column of the first
    row, [sql.ErrNoRows] when there is none. *)
Definition GetContext (ctx : Context) (query : string)
  : M (string * option error) :=
  fun w =>
    let res := database (env w) (clock w) in
    let w' := emit (EvQuery ctx query res) w in
    match res with
    | Rows [] => Ok ("", Some sql_ErrNoRows) w'
    | Rows (row :: _) =>
        Ok (match row with (_, v) :: _ => v | [] => "" end, None) w'
    | _ => Ok ("", queryError res) w'
    end.

(** [fmt.Print(s)]. *)
Definition fmt_Print (s : string) : M unit :=
  fun w => Ok tt (emit (EvPrint s) w).

(** [terminalSize]: width, height and error of the ioctl on stdin. *)
Definition terminalSize : M (Z * Z * option error) :=
  fun w =>
    match tty (env w) (clock w) with
    | WinsizeFailed msg => Ok (-1, -1, Some (terminal_Error msg))%Z (tick w)
    | Winsize col row => Ok (col, row, None) (tick w)
    end.

(* ================================================================= *)
(** ** States *)

Record Runner : Type := mkRunner {
  db : string   (* the handle of the opened database *)
}.

(** [type StateFn func(context.Context, *Runner) (StateFn, error)]. *)
#[local] Unset Elimination Schemes.
Inductive StateFn : Type :=
| Fn (call : Context -> Runner -> World ->
             Res (option StateFn * option error)).
#[local] Set Elimination Schemes.

Definition call (fn : StateFn)
  : Context -> Runner -> M (option StateFn * option error) :=
  match fn with Fn f => f end.

Record state : Type := mkState {
  state_Name : string;
  state_Fn : StateFn
}.

(* ================================================================= *)
(** ** Connection profiles *)

(** An error made on the spot with [errors.New], or one passed on from
    the database or the prompt. *)
Inductive localError : Type :=
| errors_New (msg : string)
| passedOn (e : error).

Record CFG : Type := mkCFG {
  CFG_Name : string;       (* json:"config_name" *)
  CFG_DBName : string;     (* json:"dbName" *)
  CFG_Password : string;   (* json:"password" *)
  CFG_Port : string;       (* json:"port" *)
  CFG_SSLMode : string;    (* json:"sslMode" *)
  CFG_Username : string    (* json:"username" *)
}.

(** [strings.Join(elems, sep)]. *)
Fixpoint Join (elems : list string) (sep : string) : string :=
  match elems with
  | [] => ""
  | [e] => e
  | e :: elems' => e ++ sep ++ Join elems' sep
  end.

(** [s != ""]. *)
Definition nonEmpty (s : string) : bool := negb (String.eqb s "").

Definition DBConnection (c : CFG) : string :=
  let parts : list string := [] in
  let parts :=
    if nonEmpty (CFG_Username c)
    then (parts ++ [("user='" ++ CFG_Username c ++ "'")%string])%list else parts in
  let parts :=
    if nonEmpty (CFG_Password c)
    then (parts ++ [("password='" ++ CFG_Password c ++ "'")%string])%list
    else parts in
  let parts :=
    if nonEmpty (CFG_DBName c)
    then (parts ++ [("dbname='" ++ CFG_DBName c ++ "'")%string])%list else parts in
  let parts :=
    if nonEmpty (CFG_Port c)
    then (parts ++ [("port='" ++ CFG_Port c ++ "'")%string])%list else parts in
  let parts :=
    if nonEmpty (CFG_SSLMode c)
    then (parts ++ [("sslmode=" ++ CFG_SSLMode c)%string])%list else parts in
  Join parts " ".

(** [validateEmptyInput(label)(input)]. *)
Definition validateEmptyInput (label input : string) : option localError :=
  if String.eqb input "" then Some (errors_New ("must provide a " ++ label))
  else None.

(** In the closed examples below every string is ASCII, so the Unicode
    path of [strings.ToLower] is never taken; this stands in for it. *)
Definition noCaseMapping (s : string) : string := s.

(** [strings.Map(unicode.ToLower, s)] with case tables that map no rune:
    the strings of the examples that are not ASCII have their capital
    letters in ASCII. *)
Definition mapToLower (s : string) : string :=
  Map (unicode_ToLower (fun r => r)) s.

(** A string from the numbers of its bytes. *)
Definition bytes (l : list nat) : string :=
  fold_right (fun n s => String (ascii_of_nat n) s) "" l.

(* ================================================================= *)
(** ** The program *)

Section Program.

(** [strings.ToLower] maps a string of ASCII bytes byte by byte.  A string
    with a byte above 0x7F goes through [strings.Map(unicode.ToLower, s)]
    instead, which is left open here. *)
Variable unicodeLower : string -> string.

Definition ToLower (s : string) : string :=
  if isASCII s then mapBytes lowerByte s else unicodeLower s.

(** [overwritePrevLine] is some shell blackmagic broken down. *)
Definition overwritePrevLine : M unit :=
  let escPrevLine := String (ascii_of_nat 27) "[F" in
  let clearLine := "2K" in
  let carriageReturn := String (ascii_of_nat 13) "" in
  fmt_Print (escPrevLine ++ clearLine ++ carriageReturn).

Definition selectSize (templates : option SelectTemplates) : M Z :=
  '(_, height, err) <- terminalSize ;;
  if negb (isNil err) || isNil templates || (height <? 4)%Z then ret 1%Z
  else
    match templates with
    | Some t => ret (wrapInt (height - 4 - CountByte (Details t) newline))
    | None => panic "nil pointer dereference"
    end.

Definition selecter (name : string) (items : list Item)
    (searcher : option Searcher) (templates : option SelectTemplates)
  : M (option error) :=
  size <- selectSize templates ;;
  let sel := {| sel_HideHelp := true;
                sel_Label := name;
                sel_Items := items;
                sel_Searcher := searcher;
                sel_Size := size;
                sel_StartInSearchMode := negb (isNil searcher);
                sel_Templates := templates |} in
  '(_, err) <- Select_Run sel ;;
  _ <- overwritePrevLine ;;
  ret err.

(** The searcher of [selectStr], over its items. *)
Definition selectStr_searcher (items : list string) : Searcher :=
  fun input index =>
    match nth_error items index with
    | None => None
    | Some item =>
        let name := ReplaceByte (ToLower item) space "" in
        let input := ReplaceByte (ToLower input) space "" in
        Some (Contains name input)
    end.

(** [selectStr]: the second result of [sel.Run()] is the text of the
    chosen item, and empty when the prompt fails. *)
Definition selectStr (label : string) (items : list string)
  : M (string * option error) :=
  size <- selectSize None ;;
  let sel := {| sel_HideHelp := true;
                sel_Label := label;
                sel_Items := map ItemString items;
                sel_Searcher := Some (selectStr_searcher items);
                sel_Size := size;
                sel_StartInSearchMode := true;
                sel_Templates := None |} in
  '(i, err) <- Select_Run sel ;;
  let result :=
    match err with
    | None => nth i items ""
    | Some _ => ""
    end in
  ret (result, err).

(** *** The searchers

    Each provider closes over the slice it fetched; the closures are
    written here as functions of that slice. *)

Definition Schemas_searcher (schemas : list schema) : Searcher :=
  fun input index =>
    match nth_error schemas index with
    | None => None
    | Some sch =>
        let name := ReplaceByte (ToLower (schema_Name sch)) space "" in
        let input := ReplaceByte (ToLower input) space "" in
        Some (Contains name input)
    end.

Definition Tables_searcher (tables : list pgTable) : Searcher :=
  fun input index =>
    match nth_error tables index with
    | None => None
    | Some table =>
        let name := ReplaceByte (ToLower (pgTable_Name table)) space "" in
        let schema := ReplaceByte (ToLower (pgTable_Schema table)) space "" in
        let input := ReplaceByte (ToLower input) space "" in
        let combined := schema ++ "." ++ name in
        Some (Contains combined input)
    end.

Definition Views_searcher (views : list view) : Searcher :=
  fun input index =>
    match nth_error views index with
    | None => None
    | Some selected =>
        let name := ReplaceByte (ToLower (view_Name selected)) space "" in
        let schema :=
          ReplaceByte (ToLower (view_ViewSchema selected)) space "" in
        let input := ReplaceByte (ToLower input) space "" in
        Some (Contains (schema ++ "." ++ name) input)
    end.

Definition TablesBySchema_searcher (summaries : list schemaSummary)
  : Searcher :=
  fun input index =>
    match nth_error summaries index with
    | None => None
    | Some selected =>
        let schema :=
          ReplaceByte (ToLower (summary_Schema selected)) space "" in
        let input := ReplaceByte (ToLower input) space "" in
        Some (Contains schema input)
    end.

Definition TablesBySizeWithIndex_searcher (tables : list indexedTable)
  : Searcher :=
  fun input index =>
    match nth_error tables index with
    | None => None
    | Some table =>
        let name :=
          ReplaceByte (ToLower (pgTable_Name (indexed_pgTable table)))
                      space "" in
        let schema :=
          ReplaceByte (ToLower (pgTable_Schema (indexed_pgTable table)))
                      space "" in
        let input := ReplaceByte (ToLower input) space "" in
        let combined := schema ++ "." ++ name in
        Some (Contains combined input)
    end.

Definition TablesByRows_searcher (tables : list rowsTable) : Searcher :=
  fun input index =>
    match nth_error tables index with
    | None => None
    | Some table =>
        let name :=
          ReplaceByte (ToLower (pgTable_Name (rows_pgTable table)))
                      space "" in
        let schema :=
          ReplaceByte (ToLower (pgTable_Schema (rows_pgTable table)))
                      space "" in
        let input := ReplaceByte (ToLower input) space "" in
        let combined := schema ++ "." ++ name in
        Some (Contains combined input)
    end.

Definition ColumnsFrequency_searcher (cols : list columnFrequency)
  : Searcher :=
  fun input index =>
    match nth_error cols index with
    | None => None
    | Some selected =>
        let name := ReplaceByte (ToLower (column_Name selected)) space "" in
        let input := ReplaceByte (ToLower input) space "" in
        Some (Contains name input)
    end.

(** The searcher of [selectState], over the menu's states. *)
Definition selectState_searcher (states : list state) : Searcher :=
  fun input index =>
    match nth_error states index with
    | None => None
    | Some table =>
        let name := ReplaceByte (ToLower (state_Name table)) space "" in
        let input := ReplaceByte (ToLower input) space "" in
        Some (Contains name input)
    end.

(** *** The data providers

    The SQL text is only passed on to the driver; each query is named
    after the relation it reads. *)

Definition faint (s : string) : string :=
  "{{ " ++ dq ++ s ++ dq ++ " | faint }}".

Definition Schemas (r : Runner) (ctx : Context) : M (option error) :=
  let ctx := WithTimeout ctx 5 in
  '(rows, err) <- SelectContext ctx "information_schema.schemata" ;;
  match err with
  | Some e => ret (Some e)
  | None =>
      let schemas := map scanSchema rows in
      let templates := {|
        Label := "{{ . }}";
        Active := "» {{ .Name | bold|  cyan }} ({{ .Owner | bold | red }})";
        Inactive := "  {{ .Name | cyan }} ({{ .Owner | red }})";
        Selected := "";
        Details :=
          nl ++ "--------- Schema ----------" ++
          nl ++ faint "Name:" ++ ht ++ "{{ .Name }}" ++
          nl ++ faint "Owner:" ++ ht ++ "{{ .Owner }}" ++
          nl ++ faint "Catalog name:" ++ ht ++ "{{ .CatalogName }}" |} in
      let searcher := Schemas_searcher schemas in
      selecter "Schemas" (map ItemSchema schemas) (Some searcher)
               (Some templates)
  end.

Definition SchemasUserCreated (r : Runner) (ctx : Context)
  : M (option error) :=
  let ctx := WithTimeout ctx 5 in
  '(rows, err) <- SelectContext ctx "pg_catalog.pg_namespace" ;;
  match err with
  | Some e => ret (Some e)
  | None =>
      let schemas := map scanSchema rows in
      let templates := {|
        Label := "{{ . }}";
        Active := "» {{ .Name | bold|  cyan }} ({{ .Owner | bold | red }})";
        Inactive := "  {{ .Name | cyan }} ({{ .Owner | red }})";
        Selected := "";
        Details :=
          nl ++ "--------- Schema ----------" ++
          nl ++ faint "Name:" ++ ht ++ "{{ .Name }}" ++
          nl ++ faint "Owner:" ++ ht ++ "{{ .Owner }}" |} in
      let searcher := Schemas_searcher schemas in
      selecter "Schemas" (map ItemSchema schemas) (Some searcher)
               (Some templates)
  end.

Definition Tables (r : Runner) (ctx : Context) : M (option error) :=
  let ctx := WithTimeout ctx 5 in
  '(rows, err) <- SelectContext ctx "information_schema.tables" ;;
  match err with
  | Some e => ret (Some e)
  | None =>
      let tables := map scanPgTable rows in
      let templates := {|
        Label := "{{ . }}";
        Active := "» {{ .Schema | bold | green }}.{{ .Name | bold | cyan }}";
        Inactive := "  {{ .Schema | green }}.{{ .Name | cyan }}";
        Selected := "";
        Details :=
          nl ++ " --------- Table ----------" ++
          nl ++ " " ++ faint "Name:" ++ ht ++ "{{ .Name }}" ++
          nl ++ " " ++ faint "Schema:" ++ ht ++ "{{ .Schema }}" ++
          nl ++ " " ++ faint "Catalog:" ++ ht ++ "{{ .Catalog }}" |} in
      let searcher := Tables_searcher tables in
      selecter "Tables" (map ItemTable tables) (Some searcher)
               (Some templates)
  end.

(** The rows are scanned and dropped; nothing is shown. *)
Definition DescribeTable (r : Runner) (ctx : Context) (table : string)
  : M (option localError) :=
  if String.eqb table "" then ret (Some (errors_New "no table provided"))
  else
    '(rows, err) <-
      SelectContext ctx ("INFORMATION_SCHEMA.COLUMNS of " ++ table) ;;
    match err with
    | Some e => ret (Some (passedOn e))
    | None => ret None
    end.

(** The placeholder row of an empty result: [view{ViewSchema: "back"}]. *)
Definition backView : view := mkView "" "" false "" "back" "" "".

(** The searcher closes over the variable [views], so it sees the slice
    as it is after the placeholder was appended. *)
Definition Views (r : Runner) (ctx : Context) : M (option error) :=
  '(rows, err) <- SelectContext ctx "information_schema.view_table_usage" ;;
  match err with
  | Some e => ret (Some e)
  | None =>
      let views := map scanView rows in
      let templates := {|
        Label := "{{ . }}";
        Active := "» {{ .ViewSchema | bold | green }}.{{ .Name | bold | cyan }}: {{ .Definition }}";
        Inactive := "  {{ .ViewSchema | green }}.{{ .Name | cyan }}: {{ .Definition }}";
        Selected := "";
        Details := "" |} in
      let views :=
        if (length views =? 0)%nat then (views ++ [backView])%list else views in
      let searcher := Views_searcher views in
      selecter "Views" (map ItemView views) (Some searcher) (Some templates)
  end.

Definition MaterializedViews (r : Runner) (ctx : Context)
  : M (option error) :=
  '(rows, err) <- SelectContext ctx "pg_matviews" ;;
  match err with
  | Some e => ret (Some e)
  | None =>
      let views := map scanView rows in
      let templates := {|
        Label := "{{ . }}";
        Active := "» {{ .ViewSchema | bold | green }}.{{ .Name | bold | cyan }}: ({{ .ReferencedTableSchema }}.{{ .ReferencedTableName }}) {{ .Definition }}";
        Inactive := "  {{ .ViewSchema | green }}.{{ .Name | cyan }}: ({{ .ReferencedTableSchema }}.{{ .ReferencedTableName }}) {{ .Definition }}";
        Selected := "";
        Details := "" |} in
      let views :=
        if (length views =? 0)%nat then (views ++ [backView])%list else views in
      let searcher := Views_searcher views in
      selecter "Views" (map ItemView views) (Some searcher) (Some templates)
  end.

Definition TablesBySchema (r : Runner) (ctx : Context) : M (option error) :=
  '(rows, err) <- SelectContext ctx "tables grouped by table_schema" ;;
  match err with
  | Some e => ret (Some e)
  | None =>
      let summaries := map scanSchemaSummary rows in
      let templates := {|
        Label := "{{ . }}";
        Active := "» {{ .Schema | bold | green }}: {{ .TableCount | bold | blue}}";
        Inactive := "  {{ .Schema | green }}: {{ .TableCount | blue}}";
        Selected := "";
        Details := "" |} in
      let searcher := TablesBySchema_searcher summaries in
      selecter "Tables by Schema" (map ItemSummary summaries)
               (Some searcher) (Some templates)
  end.

Definition TablesBySize (r : Runner) (ctx : Context) : M (option error) :=
  let ctx := WithTimeout ctx 5 in
  '(rows, err) <- SelectContext ctx "pg_statio_user_tables by size" ;;
  match err with
  | Some e => ret (Some e)
  | None =>
      let tables := map scanPgTable rows in
      let templates := {|
        Label := "{{ . }}";
        Active := "» {{ .Schema | bold | green }}.{{ .Name | bold | cyan }}: {{ .Size | bold | blue}}";
        Inactive := "  {{ .Schema | green }}.{{ .Name | cyan }}: {{ .Size | blue}}";
        Selected := "";
        Details := "" |} in
      let searcher := Tables_searcher tables in
      selecter "Tables by Size" (map ItemTable tables) (Some searcher)
               (Some templates)
  end.

Definition TablesBySizeWithIndex (r : Runner) (ctx : Context)
  : M (option error) :=
  '(rows, err) <- SelectContext ctx "pg_statio_user_tables by total size" ;;
  match err with
  | Some e => ret (Some e)
  | None =>
      let tables := map scanIndexedTable rows in
      let templates := {|
        Label := "{{ . }}";
        Active := "» {{ .Schema | bold | green }}.{{ .Name | bold | cyan }}: {{ .Size | bold | blue}} (Internal {{ .DataSize | blue }} | External {{ .ExternalSize | blue }})";
        Inactive := "  {{ .Schema | green }}.{{ .Name | cyan }}: {{ .Size | blue}} (Internal {{ .DataSize | blue }} | External {{ .ExternalSize | blue }})";
        Selected := "";
        Details := "" |} in
      let searcher := TablesBySizeWithIndex_searcher tables in
      selecter "Tables by Size with Index" (map ItemIndexed tables)
               (Some searcher) (Some templates)
  end.

Definition TablesByRows (r : Runner) (ctx : Context) : M (option error) :=
  '(rows, err) <- SelectContext ctx "pg_class by reltuples" ;;
  match err with
  | Some e => ret (Some e)
  | None =>
      let tables := map scanRowsTable rows in
      let templates := {|
        Label := "{{ . }}";
        Active := "» {{ .Schema | bold | green }}.{{ .Name | bold | cyan }}: {{ .Rows | bold | blue}} rows";
        Inactive := "  {{ .Schema | green }}.{{ .Name | cyan }}: {{ .Rows | blue}} rows";
        Selected := "";
        Details := "" |} in
      let searcher := TablesByRows_searcher tables in
      selecter "Tables by Rows" (map ItemRows tables) (Some searcher)
               (Some templates)
  end.

Definition TablesEmpty (r : Runner) (ctx : Context) : M (option error) :=
  '(rows, err) <- SelectContext ctx "pg_class with reltuples = 0" ;;
  match err with
  | Some e => ret (Some e)
  | None =>
      let tables := map scanPgTable rows in
      let templates := {|
        Label := "{{ . }}";
        Active := "» {{ .Schema | bold | green }}.{{ .Name | bold | cyan }}: 0 rows";
        Inactive := "  {{ .Schema | green }}.{{ .Name | cyan }}: 0 rows";
        Selected := "";
        Details := "" |} in
      let searcher := Tables_searcher tables in
      selecter "Empty Tables" (map ItemTable tables) (Some searcher)
               (Some templates)
  end.

Definition TablesGroupByRows (r : Runner) (ctx : Context)
  : M (option error) :=
  '(rows, err) <- SelectContext ctx "pg_class grouped by row count" ;;
  match err with
  | Some e => ret (Some e)
  | None =>
      let tables := map scanRowGroup rows in
      let templates := {|
        Label := "{{ . }}";
        Active := "» {{ .RowCount | bold | cyan }}: {{ .TableCount | bold | blue }}";
        Inactive := "  {{ .RowCount | cyan }}: {{ .TableCount | blue }}";
        Selected := "";
        Details := "" |} in
      selecter "Tables Grouped By Rows" (map ItemGroup tables) None
               (Some templates)
  end.

Definition ColumnsFrequency (r : Runner) (ctx : Context)
  : M (option error) :=
  '(rows, err) <- SelectContext ctx "information_schema.columns frequency" ;;
  match err with
  | Some e => ret (Some e)
  | None =>
      let cols := map scanColumnFrequency rows in
      let templates := {|
        Label := "{{ . }}";
        Active := "» {{ .Name | bold | green }}: {{ .Tables | bold | cyan }} ({{ .PercentTables | bold | blue}})";
        Inactive := "  {{ .Name | green }}: {{ .Tables | cyan }} ({{ .PercentTables | blue}})";
        Selected := "";
        Details :=
          nl ++ " --------- Columns ----------" ++
          nl ++ " " ++ faint "Column Name:" ++ ht ++ "{{ .Name }}" ++
          nl ++ " " ++ faint "Table Count:" ++ ht ++ "{{ .Tables }}" ++
          nl ++ " " ++ faint "Percentage of Tables:" ++ ht ++
          "{{ .PercentTables }}" |} in
      let searcher := ColumnsFrequency_searcher cols in
      selecter "Column Frequencies" (map ItemColumn cols) (Some searcher)
               (Some templates)
  end.

Definition Version (r : Runner) (ctx : Context) : M (option error) :=
  '(version, err) <- GetContext ctx "SELECT version()" ;;
  match err with
  | Some e => ret (Some e)
  | None => selecter "Postgres Version" [ItemString version] None None
  end.

(** *** The menu *)

Definition selectState (name : string) (states : list state)
  : M (option StateFn * option error) :=
  if (length states =? 0)%nat then ret (None, None)
  else
    let templates := {|
      Label := "{{ . }}";
      Active := "» {{ .Name | bold | cyan }} ";
      Inactive := "  {{ .Name | cyan }} ";
      Selected := "{{ print .Name }}";
      Details := "" |} in
    let searcher := selectState_searcher states in
    size <- selectSize (Some templates) ;;
    let sel := {| sel_HideHelp := true;
                  sel_Label := name;
                  sel_Items := map (fun s => ItemState (state_Name s)) states;
                  sel_Searcher := Some searcher;
                  sel_Size := size;
                  sel_StartInSearchMode := true;
                  sel_Templates := Some templates |} in
    '(i, err) <- Select_Run sel ;;
    match err with
    | Some e => ret (None, Some e)
    | None =>
        _ <- overwritePrevLine ;;
        match nth_error states i with
        | Some s => ret (Some (state_Fn s), None)
        | None => panic "index out of range"
        end
    end.

(** An action: [func(ctx, r) (StateFn, error) { return nil, provider(ctx) }]. *)
Definition action (provider : Runner -> Context -> M (option error))
  : StateFn :=
  Fn (fun ctx r => err <- provider r ctx ;; ret (None, err)).

(** The states that the source declares inside the [Fn] of their menu
    are lifted out here under the menu's name. *)
Definition schemaState_all : state :=
  {| state_Name := "All"; state_Fn := action Schemas |}.

Definition schemaState_userCreated : state :=
  {| state_Name := "User Created"; state_Fn := action SchemasUserCreated |}.

Definition schemaState : state :=
  {| state_Name := "Schemas";
     state_Fn := Fn (fun ctx r =>
       let all := schemaState_all in
       let userCreated := schemaState_userCreated in
       selectState "Schema Options" [all; userCreated]) |}.

Definition tableState : state :=
  {| state_Name := "Tables"; state_Fn := action Tables |}.

Definition viewState_all : state :=
  {| state_Name := "All"; state_Fn := action Views |}.

Definition viewState_materialized : state :=
  {| state_Name := "Materialized"; state_Fn := action MaterializedViews |}.

Definition viewState : state :=
  {| state_Name := "Views";
     state_Fn := Fn (fun ctx r =>
       let all := viewState_all in
       let materialized := viewState_materialized in
       selectState "Views" [all; materialized]) |}.

Definition statStates : list state :=
  [ {| state_Name := "Table Count Per Schema";
       state_Fn := action TablesBySchema |};
    {| state_Name := "Tables By Size";
       state_Fn := action TablesBySize |};
    {| state_Name := "Tables By Size With Indexes";
       state_Fn := action TablesBySizeWithIndex |};
    {| state_Name := "Table Row Counts";
       state_Fn := action TablesByRows |};
    {| state_Name := "Empty Tables";
       state_Fn := action TablesEmpty |};
    {| state_Name := "Tables Grouped By Rows";
       state_Fn := action TablesGroupByRows |};
    {| state_Name := "Column Name Frequencies";
       state_Fn := action ColumnsFrequency |};
    {| state_Name := "Postgres Version";
       state_Fn := action Version |} ].

Definition statsState : state :=
  {| state_Name := "Stats";
     state_Fn := Fn (fun ctx r => selectState "Stats" statStates) |}.

Definition exploreState : state :=
  {| state_Name := "Explore";
     state_Fn := Fn (fun ctx r =>
       selectState "Where too?"
                   [schemaState; tableState; viewState; statsState]) |}.

Definition playgroundState : state :=
  {| state_Name := "PlayGround";
     state_Fn := Fn (fun ctx r => ret (None, None)) |}.

Definition startStates : list state := [exploreState; playgroundState].

Definition startState : state :=
  {| state_Name := "Back to Start";
     state_Fn := Fn (fun _ _ => selectState "Options" startStates) |}.

(** *** The navigator *)

(** The [for fn := startState.Fn; fn != nil; { ... }] loop of [Run],
    entered with the current [fn] and [err].  [fuel] bounds the number
    of iterations; [None] means the loop is still running after them. *)
Fixpoint loop (fuel : nat) (ctx : Context) (r : Runner)
    (fn : option StateFn) (err : option error) (w : World)
  : option (Res (option error)) :=
  match fn with
  | None => Some (Ok err w)
  | Some f =>
      match fuel with
      | O => None
      | S fuel' =>
          match call f ctx r w with
          | Panic msg w' => Some (Panic msg w')
          | Ok (fn', err') w' =>
              let fn' :=
                if isNil fn' && isNil err' then Some (state_Fn startState)
                else fn' in
              loop fuel' ctx r fn' err' w'
          end
      end
  end.

Definition Run (fuel : nat) (r : Runner) (ctx : Context) (debug : bool)
    (w : World) : option (Res (option error)) :=
  loop fuel ctx r (Some (state_Fn startState)) None w.

(** What [main] does with the error of [Run]: whether it is logged. *)
Definition mainLogs (debug : bool) (err : option error) : bool :=
  match err with
  | None => false
  | Some e =>
      debug && negb (error_eqb e context_Canceled)
            && negb (error_eqb e errFinished)
  end.


(* ================================================================= *)
(** ** Vocabulary of the properties *)

(** The normal form every searcher compares in:
    [strings.Replace(strings.ToLower(s), " ", "", -1)]. *)
Definition squash (s : string) : string :=
  ReplaceByte (ToLower s) space "".

(** The bytes [overwritePrevLine] writes: ESC [ F 2 K CR. *)
Definition eraseSequence : string :=
  String (ascii_of_nat 27) ("[F2K" ++ String (ascii_of_nat 13) "").

(** The size [selectSize] computes from the answer of the ioctl. *)
Definition viewport (templates : option SelectTemplates)
    (ws : WinsizeResult) : Z :=
  match ws, templates with
  | Winsize _ row, Some t =>
      if (row <? 4)%Z then 1%Z
      else wrapInt (row - 4 - CountByte (Details t) newline)
  | _, _ => 1%Z
  end.

Definition worldOf {A : Type} (res : Res A) : World :=
  match res with Ok _ w => w | Panic _ w => w end.

(** The prompts shown so far, most recent first. *)
Fixpoint prompts (t : list Event) : list Select :=
  match t with
  | [] => []
  | EvSelect sel _ :: t' => sel :: prompts t'
  | _ :: t' => prompts t'
  end.

(** How often the erase sequence was written. *)
Fixpoint erasures (t : list Event) : nat :=
  match t with
  | [] => 0
  | EvPrint s :: t' =>
      ((if String.eqb s eraseSequence then 1 else 0) + erasures t')%nat
  | _ :: t' => erasures t'
  end.

(** The most recent call that can fail: a prompt or a query. *)
Fixpoint lastCall (t : list Event) : option Event :=
  match t with
  | [] => None
  | EvPrint _ :: t' => lastCall t'
  | ev :: _ => Some ev
  end.

(** The states of the tree. *)
Definition menuStates : list state :=
  [startState; exploreState; schemaState; viewState; statsState].

Definition actionStates : list state :=
  [schemaState_all; schemaState_userCreated; tableState;
   viewState_all; viewState_materialized] ++ statStates.

Definition inTree (f : StateFn) : Prop :=
  In f (map state_Fn (menuStates ++ playgroundState :: actionStates)).

(** One pass through the body of the loop of [Run]: the next value of
    [fn] and the world, when the loop goes on. *)
Definition step (ctx : Context) (r : Runner) (f : StateFn) (w : World)
  : option (StateFn * World) :=
  match call f ctx r w with
  | Panic _ _ => None
  | Ok (fn', err') w' =>
      let fn' :=
        if isNil fn' && isNil err' then Some (state_Fn startState)
        else fn' in
      match fn' with
      | None => None
      | Some f' => Some (f', w')
      end
  end.

Fixpoint iterationFrom (k : nat) (ctx : Context) (r : Runner)
    (f : StateFn) (w : World) : option (StateFn * World) :=
  match k with
  | O => Some (f, w)
  | S k' =>
      match step ctx r f w with
      | None => None
      | Some (f', w') => iterationFrom k' ctx r f' w'
      end
  end.

(** The loop variable [fn] and the world at the head of iteration [k]
    of [Run], when the loop gets that far. *)
Definition iteration (k : nat) (ctx : Context) (r : Runner) (w : World)
  : option (StateFn * World) :=
  iterationFrom k ctx r (state_Fn startState) w.

(** What the transition called in iteration [k] returns. *)
Definition transition (k : nat) (ctx : Context) (r : Runner) (w : World)
  : option (Res (option StateFn * option error)) :=
  match iteration k ctx r w with
  | None => None
  | Some (f, w1) => Some (call f ctx r w1)
  end.

(** The [Select] that [selecter] builds in world [w]. *)
Definition selecterPrompt (name : string) (items : list Item)
    (searcher : option Searcher) (templates : option SelectTemplates)
    (w : World) : Select :=
  {| sel_HideHelp := true;
     sel_Label := name;
     sel_Items := items;
     sel_Searcher := searcher;
     sel_Size := viewport templates (tty (env w) (clock w));
     sel_StartInSearchMode := negb (isNil searcher);
     sel_Templates := templates |}.

(** The answer the user gives to the prompt opened in world [w], which
    comes right after the size query. *)
Definition answerAt (w : World) : Answer := prompt (env w) (S (clock w)).

(** The [Select] that [selectState] builds in world [w]. *)
Definition menuPrompt (name : string) (states : list state) (w : World)
  : Select :=
  let templates := {|
    Label := "{{ . }}";
    Active := "» {{ .Name | bold | cyan }} ";
    Inactive := "  {{ .Name | cyan }} ";
    Selected := "{{ print .Name }}";
    Details := "" |} in
  {| sel_HideHelp := true;
     sel_Label := name;
     sel_Items := map (fun s => ItemState (state_Name s)) states;
     sel_Searcher := Some (selectState_searcher states);
     sel_Size := viewport (Some templates) (tty (env w) (clock w));
     sel_StartInSearchMode := true;
     sel_Templates := Some templates |}.

(** What a data provider can do in world [w]: its query fails, or the
    rows are shown in one prompt, which is erased afterwards. *)
Inductive ProviderRun (w : World) : Res (option error) -> Prop :=
| QueryFails (ctx : Context) (q : string) (res : QueryResult) (e : error) :
    e <> promptui_ErrInterrupt ->
    ProviderRun w (Ok (Some e) (emit (EvQuery ctx q res) w))
| RowsShown (ctx : Context) (q : string) (res : QueryResult) (sel : Select) :
    let w1 := emit (EvQuery ctx q res) w in
    ProviderRun w
      (Ok (selectError (answerAt w1))
          (emit (EvPrint eraseSequence)
             (emit (EvSelect sel (answerAt w1)) (tick w1)))).

(** What a transition of the tree can do in world [w]. *)
Inductive TransitionRun (w : World)
  : Res (option StateFn * option error) -> Prop :=
| Bounces : TransitionRun w (Ok (None, None) w)
| MenuChosen (sel : Select) (k : nat) (s : state) :
    inTree (state_Fn s) ->
    TransitionRun w
      (Ok (Some (state_Fn s), None)
          (emit (EvPrint eraseSequence)
             (emit (EvSelect sel (Chosen k)) (tick w))))
| MenuFails (sel : Select) (a : Answer) (e : error) :
    selectError a = Some e ->
    TransitionRun w (Ok (None, Some e) (emit (EvSelect sel a) (tick w)))
| ActionRuns (err : option error) (w' : World) :
    ProviderRun w (Ok err w') ->
    TransitionRun w (Ok (None, err) w').

(** Worlds to run the program in: the user always gives the same
    answer, every query returns the same rows, and the terminal has
    [height] rows. *)
Definition scriptedWorld (answer : Answer) (rows : list RawRow)
    (height : Z) : World :=
  {| env := {| prompt := fun _ => answer;
               database := fun _ => Rows rows;
               tty := fun _ => Winsize 80 height |};
     clock := 0;
     trace := [] |}.

Definition publicSchema : RawRow :=
  [("schema_name", "public"); ("schema_owner", "postgres");
   ("catalog_name", "postgres")].

Definition theRunner : Runner := {| db := "postgres" |}.

(** A template set without details. *)
Definition plainTemplates : SelectTemplates :=
  {| Label := "{{ . }}"; Active := ""; Inactive := ""; Selected := "";
     Details := "" |}.

(** All data providers, in the order of the source. *)
Definition providers : list (Runner -> Context -> M (option error)) :=
  [Schemas; SchemasUserCreated; Tables; Views; MaterializedViews;
   TablesBySchema; TablesBySize; TablesBySizeWithIndex; TablesByRows;
   TablesEmpty; TablesGroupByRows; ColumnsFrequency; Version].

(** The lists a provider hands to the prompt when run in [w]. *)
Definition itemsShown (p : Runner -> Context -> M (option error))
    (w : World) : list (list Item) :=
  map sel_Items (prompts (trace (worldOf (p theRunner Background w)))).

(** The world after Ctrl-C at the root menu of a fresh session. *)
Definition cancelledAtRoot : World :=
  let w := scriptedWorld Interrupted [] 24 in
  emit (EvSelect (menuPrompt "Options" startStates w) Interrupted) (tick w).

(** The world after Schemas, All was shown and confirmed. *)
Definition schemasShown : World :=
  worldOf (call (state_Fn schemaState_all) Background theRunner
                (scriptedWorld (Chosen 0) [publicSchema] 24)).

(** *** Vocabulary of the further properties *)

(** The searcher answers at exactly the indices below [n]; at the
    others it would panic. *)
Definition SearcherFor (n : nat) (searcher : option Searcher) : Prop :=
  match searcher with
  | None => True
  | Some s => forall input index, s input index = None <-> n <= index
  end.

(** What all prompts of the program have in common: no help line,
    search mode exactly when there is a searcher, and a searcher that
    fits the items. *)
Definition wellFormed (sel : Select) : Prop :=
  sel_HideHelp sel = true /\
  sel_StartInSearchMode sel = negb (isNil (sel_Searcher sel)) /\
  SearcherFor (length (sel_Items sel)) (sel_Searcher sel).

(** The steps of a data provider in world [w], tied to the oracle: one
    query under the context [ctx']; when it fails (or [GetContext] finds
    no row) that is all, otherwise one prompt built by [selecter]. *)
Inductive ProviderSteps (ctx' : Context) (w : World)
  : Res (option error) -> Prop :=
| FetchFails (q : string) (res : QueryResult) (e : error) :
    database (env w) (clock w) = res ->
    queryError res = Some e \/ (res = Rows [] /\ e = sql_ErrNoRows) ->
    ProviderSteps ctx' w (Ok (Some e) (emit (EvQuery ctx' q res) w))
| FetchShown (q : string) (res : QueryResult) (name : string)
    (items : list Item) (searcher : option Searcher)
    (templates : option SelectTemplates) :
    let w1 := emit (EvQuery ctx' q res) w in
    database (env w) (clock w) = res ->
    queryError res = None ->
    SearcherFor (length items) searcher ->
    ProviderSteps ctx' w
      (Ok (selectError (answerAt w1))
          (emit (EvPrint eraseSequence)
             (emit (EvSelect (selecterPrompt name items searcher templates w1)
                             (answerAt w1))
                   (tick w1)))).

(** The three kinds of transition in the tree. *)
Inductive TreeShape (f : StateFn) : Prop :=
| IsPlayground :
    (forall ctx r w, call f ctx r w = Ok (None, None) w) ->
    TreeShape f
| IsMenu (name : string) (s : state) (states : list state) :
    (forall s', In s' (s :: states) -> inTree (state_Fn s')) ->
    (forall ctx r w, call f ctx r w = selectState name (s :: states) w) ->
    TreeShape f
| IsAction (p : Runner -> Context -> M (option error)) :
    (forall r ctx w, exists ctx', ProviderSteps ctx' w (p r ctx w)) ->
    (forall ctx r w, call f ctx r w = call (action p) ctx r w) ->
    TreeShape f.

(** The steps of a transition of the tree in world [w], tied to the
    oracle. *)
Inductive TransitionSteps (w : World)
  : Res (option StateFn * option error) -> Prop :=
| StepBounces : TransitionSteps w (Ok (None, None) w)
| StepChosen (name : string) (s : state) (states : list state)
    (k : nat) (s' : state) :
    answerAt w = Chosen k ->
    nth_error (s :: states) (Nat.min k (length (s :: states) - 1))
    = Some s' ->
    inTree (state_Fn s') ->
    TransitionSteps w
      (Ok (Some (state_Fn s'), None)
          (emit (EvPrint eraseSequence)
             (emit (EvSelect (menuPrompt name (s :: states) w) (Chosen k))
                   (tick w))))
| StepMenuFails (name : string) (s : state) (states : list state)
    (e : error) :
    selectError (answerAt w) = Some e ->
    TransitionSteps w
      (Ok (None, Some e)
          (emit (EvSelect (menuPrompt name (s :: states) w) (answerAt w))
                (tick w)))
| StepAction (ctx' : Context) (err : option error) (w' : World) :
    ProviderSteps ctx' w (Ok err w') ->
    TransitionSteps w (Ok (None, err) w').

(** From call [n] on every prompt fails: the user only interrupts, or
    the input is closed. *)
Definition inputCloses (n : nat) (w : World) : Prop :=
  forall c, n <= c -> selectError (prompt (env w) c) <> None.

(** The searcher looks for the squashed query in a key of the item. *)
Definition comparesSquashed {A : Type} (s : Searcher) (l : list A)
    (key : A -> string) : Prop :=
  forall input index,
    s input index
    = option_map (fun x => Contains (key x) (squash input))
                 (nth_error l index).

(** Typing more never brings an item back: an item found by a query is
    found by every part of it. *)
Definition narrows (s : Searcher) : Prop :=
  forall q1 q2 index,
    isASCII q1 = true -> isASCII q2 = true ->
    s (q1 ++ q2) index = Some true ->
    s q1 index = Some true /\ s q2 index = Some true.

(** The case of the letters and the spaces of the query do not count. *)
Definition ignoresCaseAndSpaces (s : Searcher) : Prop :=
  forall q index,
    isASCII q = true ->
    s (ToLower q) index = s q index /\
    s (ReplaceByte q space "") index = s q index /\
    s (" " ++ q) index = s q index /\
    s (q ++ " ") index = s q index.

(** The searcher looks at one field of the item.  It compares the
    squashed field with the squashed query; so it finds the item by the
    field without its spaces, and it gives the same for a query and for
    the query without its spaces. *)
Definition searchesField {A : Type} (searcher : list A -> Searcher)
    (field : A -> string) : Prop :=
  forall l index x,
    nth_error l index = Some x ->
    (forall input,
       searcher l input index
       = Some (Contains (squash (field x)) (squash input))) /\
    (ValidString (field x) = true ->
     searcher l (ReplaceByte (field x) space "") index = Some true) /\
    (forall q,
       ValidString q = true ->
       searcher l (ReplaceByte q space "") index = searcher l q index).

(** The searcher looks at the schema and the name of the item, joined by
    a dot. *)
Definition searchesQualifiedName {A : Type} (searcher : list A -> Searcher)
    (schema name : A -> string) : Prop :=
  forall l index x,
    nth_error l index = Some x ->
    (forall input,
       searcher l input index
       = Some (Contains (squash (schema x) ++ "." ++ squash (name x))
                        (squash input))) /\
    (ValidString (schema x) = true ->
     ValidString (name x) = true ->
     searcher l (ReplaceByte (schema x ++ "." ++ name x) space "") index
     = Some true) /\
    (forall q,
       ValidString q = true ->
       searcher l (ReplaceByte q space "") index = searcher l q index).

(** The world after Explore was chosen at the root menu. *)
Definition exploreOpened : World :=
  worldOf (call (state_Fn startState) Background theRunner
                (scriptedWorld (Chosen 0) [publicSchema] 24)).

(** A world whose database refuses every query. *)
Definition refusingDatabase : World :=
  {| env := {| prompt := fun _ => Chosen 0;
               database := fun _ => QueryFailed "connection refused";
               tty := fun _ => Winsize 80 24 |};
     clock := 0;
     trace := [] |}.

(** A profile with every field set, and one with only a name. *)
Definition fullProfile : CFG :=
  {| CFG_Name := "local"; CFG_DBName := "shop"; CFG_Password := "secret";
     CFG_Port := "5433"; CFG_SSLMode := "disable";
     CFG_Username := "postgres" |}.

Definition blankProfile : CFG :=
  {| CFG_Name := "blank"; CFG_DBName := ""; CFG_Password := "";
     CFG_Port := ""; CFG_SSLMode := ""; CFG_Username := "" |}.

(** The contexts of the queries made so far, most recent first. *)
Fixpoint queryContexts (t : list Event) : list Context :=
  match t with
  | [] => []
  | EvQuery ctx _ _ :: t' => ctx :: queryContexts t'
  | _ :: t' => queryContexts t'
  end.

(** The providers that put a five second timeout on their query, and
    those that do not. *)
Definition timedProviders : list (Runner -> Context -> M (option error)) :=
  [Schemas; SchemasUserCreated; Tables; TablesBySize].

Definition untimedProviders
  : list (Runner -> Context -> M (option error)) :=
  [Views; MaterializedViews; TablesBySchema; TablesBySizeWithIndex;
   TablesByRows; TablesEmpty; TablesGroupByRows; ColumnsFrequency; Version].

(** The prompt of the root menu, opened in world [w]. *)
Definition rootPrompt (w : World) : Select :=
  menuPrompt "Options" startStates w.

(** A session in which the user confirms the first entry of every
    prompt that comes before call [n], and presses Ctrl-C from then on;
    every query returns the one schema. *)
Definition quitsAfter (n : nat) : World :=
  {| env := {| prompt := fun c => if (c <? n)%nat then Chosen 0
                                  else Interrupted;
               database := fun _ => Rows [publicSchema];
               tty := fun _ => Winsize 80 24 |};
     clock := 0;
     trace := [] |}.

(** What [Run] returned with, and the labels of the prompts it opened,
    most recent first. *)
Definition outcome (res : option (Res (option error)))
  : option (option error * list string) :=
  match res with
  | Some (Ok err w) => Some (err, map sel_Label (prompts (trace w)))
  | _ => None
  end.

(* ================================================================= *)
(** ** How the pieces behave *)

Lemma selectSize_spec templates w :
  selectSize templates w
  = Ok (viewport templates (tty (env w) (clock w))) (tick w).
Proof.
  unfold selectSize, bind, terminalSize, viewport.
  destruct (tty (env w) (clock w)) as [col row|msg]; simpl.
  - destruct templates as [t|]; simpl; [|reflexivity].
    destruct (row <? 4)%Z; reflexivity.
  - reflexivity.
Qed.

Lemma overwritePrevLine_spec w :
  overwritePrevLine w = Ok tt (emit (EvPrint eraseSequence) w).
Proof. reflexivity. Qed.

Lemma selecter_spec name items searcher templates w :
  selecter name items searcher templates w
  = Ok (selectError (answerAt w))
       (emit (EvPrint eraseSequence)
          (emit (EvSelect (selecterPrompt name items searcher templates w)
                          (answerAt w))
                (tick w))).
Proof.
  unfold selecter, bind. rewrite selectSize_spec.
  unfold Select_Run. cbn [env clock tick].
  rewrite overwritePrevLine_spec. reflexivity.
Qed.

Lemma nth_error_clamped {A : Type} (x : A) (l : list A) (k : nat) :
  exists y, nth_error (x :: l) (Nat.min k (length (x :: l) - 1)) = Some y
            /\ In y (x :: l).
Proof.
  destruct (nth_error (x :: l) (Nat.min k (length (x :: l) - 1))) as [y|] eqn:E.
  - exists y. split; [reflexivity|]. eapply nth_error_In; eassumption.
  - apply nth_error_None in E. simpl in E. lia.
Qed.

Lemma selectState_spec name s states w :
  let w1 := emit (EvSelect (menuPrompt name (s :: states) w) (answerAt w))
                 (tick w) in
  match answerAt w with
  | Chosen k =>
      exists s', In s' (s :: states) /\
        selectState name (s :: states) w
        = Ok (Some (state_Fn s'), None) (emit (EvPrint eraseSequence) w1)
  | a => selectState name (s :: states) w = Ok (None, selectError a) w1
  end.
Proof.
  intros w1. unfold selectState. cbn [length Nat.eqb].
  unfold bind. rewrite selectSize_spec.
  unfold Select_Run. cbn [env clock tick].
  fold (answerAt w). fold (menuPrompt name (s :: states) w). 
  destruct (answerAt w) as [k| | |msg] eqn:Ea; cbn [selectError]; try reflexivity.
  rewrite overwritePrevLine_spec.
  cbn [sel_Items menuPrompt]. rewrite length_map.
  destruct (nth_error_clamped s states k) as [y [Hy Hin]].
  exists y. split; [exact Hin|]. rewrite Hy. reflexivity.
Qed.

Lemma queryError_not_interrupt res e :
  queryError res = Some e -> e <> promptui_ErrInterrupt.
Proof. destruct res; simpl; intros H; inversion H; discriminate. Qed.

Ltac provider_runs :=
  intros;
  match goal with
  | |- ProviderRun ?w (?p ?r ?ctx ?w) => unfold p
  end;
  unfold bind, SelectContext;
  match goal with
  | |- context [database (env ?w) (clock ?w)] =>
      destruct (database (env w) (clock w)) eqn:?
  end;
  cbn [queryError];
  try (apply QueryFails; discriminate);
  rewrite selecter_spec; apply RowsShown.

Lemma Schemas_runs r ctx w : ProviderRun w (Schemas r ctx w).
Proof. provider_runs. Qed.

Lemma SchemasUserCreated_runs r ctx w :
  ProviderRun w (SchemasUserCreated r ctx w).
Proof. provider_runs. Qed.

Lemma Tables_runs r ctx w : ProviderRun w (Tables r ctx w).
Proof. provider_runs. Qed.

Lemma Views_runs r ctx w : ProviderRun w (Views r ctx w).
Proof. provider_runs. Qed.

Lemma MaterializedViews_runs r ctx w :
  ProviderRun w (MaterializedViews r ctx w).
Proof. provider_runs. Qed.

Lemma TablesBySchema_runs r ctx w : ProviderRun w (TablesBySchema r ctx w).
Proof. provider_runs. Qed.

Lemma TablesBySize_runs r ctx w : ProviderRun w (TablesBySize r ctx w).
Proof. provider_runs. Qed.

Lemma TablesBySizeWithIndex_runs r ctx w :
  ProviderRun w (TablesBySizeWithIndex r ctx w).
Proof. provider_runs. Qed.

Lemma TablesByRows_runs r ctx w : ProviderRun w (TablesByRows r ctx w).
Proof. provider_runs. Qed.

Lemma TablesEmpty_runs r ctx w : ProviderRun w (TablesEmpty r ctx w).
Proof. provider_runs. Qed.

Lemma TablesGroupByRows_runs r ctx w :
  ProviderRun w (TablesGroupByRows r ctx w).
Proof. provider_runs. Qed.

Lemma ColumnsFrequency_runs r ctx w :
  ProviderRun w (ColumnsFrequency r ctx w).
Proof. provider_runs. Qed.

Lemma Version_runs r ctx w : ProviderRun w (Version r ctx w).
Proof.
  unfold Version, bind, GetContext.
  destruct (database (env w) (clock w)) as [[|[|[k v] row] rows]| | |msg];
    cbn [queryError];
    try (apply QueryFails; discriminate);
    rewrite selecter_spec; apply RowsShown.
Qed.

Create HintDb providers.
#[local] Hint Resolve Schemas_runs SchemasUserCreated_runs Tables_runs
  Views_runs MaterializedViews_runs TablesBySchema_runs TablesBySize_runs
  TablesBySizeWithIndex_runs TablesByRows_runs TablesEmpty_runs
  TablesGroupByRows_runs ColumnsFrequency_runs Version_runs : providers.

Lemma action_runs (p : Runner -> Context -> M (option error)) :
  (forall r ctx w, ProviderRun w (p r ctx w)) ->
  forall ctx r w, TransitionRun w (call (action p) ctx r w).
Proof.
  intros Hp ctx r w. unfold action, call, bind.
  pose proof (Hp r ctx w) as H.
  remember (p r ctx w) as res eqn:E.
  destruct H; cbn [ret].
  - apply ActionRuns. rewrite E. apply Hp.
  - apply ActionRuns. rewrite E. apply Hp.
Qed.

Lemma menu_runs name s states :
  (forall s', In s' (s :: states) -> inTree (state_Fn s')) ->
  forall w, TransitionRun w (selectState name (s :: states) w).
Proof.
  intros Hin w. pose proof (selectState_spec name s states w) as H.
  cbv zeta in H.
  destruct (answerAt w) as [k| | |msg].
  - destruct H as [s' [Hs' ->]]. apply MenuChosen. apply Hin, Hs'.
  - rewrite H. apply MenuFails. reflexivity.
  - rewrite H. apply MenuFails. reflexivity.
  - rewrite H. apply MenuFails. reflexivity.
Qed.

Lemma menu_members_inTree (l : list state) :
  incl l (menuStates ++ playgroundState :: actionStates) ->
  forall s', In s' l -> inTree (state_Fn s').
Proof. intros Hl s' Hs'. unfold inTree. apply in_map, Hl, Hs'. Qed.

Ltac members :=
  apply menu_members_inTree; intros x Hx;
  unfold menuStates, actionStates, statStates, startStates in *;
  cbn [app In] in *; intuition auto 25.

(** Every transition of the tree behaves in one of the four ways. *)
Lemma tree_transition f :
  inTree f -> forall ctx r w, TransitionRun w (call f ctx r w).
Proof.
  unfold inTree, menuStates, actionStates, statStates.
  cbn [app map In state_Fn].
  intros H ctx r w.
  repeat (destruct H as [<-|H]); try contradiction.
  1-5: apply menu_runs; members.
  1: apply Bounces.
  all: apply action_runs; auto with providers.
Qed.

Lemma startState_inTree : inTree (state_Fn startState).
Proof. unfold inTree, menuStates. cbn [app map In]. auto. Qed.

(** A transition of the tree never panics, never returns a next state
    together with an error, and stays in the tree. *)
Lemma tree_discipline f ctx r w :
  inTree f ->
  match call f ctx r w with
  | Panic _ _ => False
  | Ok (nxt, err) _ =>
      (err <> None -> nxt = None) /\
      (forall f', nxt = Some f' -> inTree f')
  end.
Proof.
  intros Hf. pose proof (tree_transition f Hf ctx r w) as H.
  destruct H.
  - split; [congruence|discriminate].
  - split; [congruence|]. intros f' E. inversion E. subst. assumption.
  - split; [reflexivity|discriminate].
  - split; [reflexivity|discriminate].
Qed.

Lemma loop_nil fuel ctx r err w :
  loop fuel ctx r None err w = Some (Ok err w).
Proof. destruct fuel; reflexivity. Qed.

(** When the loop ends, it ends in some iteration whose transition
    returned an error and no next state, and with that error. *)
Lemma loop_returns ctx r fuel :
  forall f err0 w res,
    inTree f ->
    loop fuel ctx r (Some f) err0 w = Some res ->
    exists k fk wk e w',
      k < fuel /\
      iterationFrom k ctx r f w = Some (fk, wk) /\
      inTree fk /\
      call fk ctx r wk = Ok (None, Some e) w' /\
      res = Ok (Some e) w'.
Proof.
  induction fuel as [|fuel IH]; intros f err0 w res Hf Hrun.
  - discriminate.
  - cbn [loop] in Hrun.
    pose proof (tree_discipline f ctx r w Hf) as Hd.
    destruct (call f ctx r w) as [[nxt err] w1|msg w1] eqn:Ecall;
      [|contradiction].
    destruct Hd as [Herr Hnxt].
    destruct nxt as [f'|]; cbn [isNil andb] in Hrun.
    + (* a menu entry was chosen *)
      destruct (IH f' err w1 res (Hnxt f' eq_refl) Hrun)
        as (k & fk & wk & e & w' & Hk & Hit & Hfk & Hcall & Hres).
      exists (S k), fk, wk, e, w'. repeat split; try assumption; [lia|].
      cbn [iterationFrom]. unfold step. rewrite Ecall.
      cbn [isNil andb]. exact Hit.
    + destruct err as [e|]; cbn [isNil] in Hrun.
      * (* the transition failed *)
        rewrite loop_nil in Hrun. inversion Hrun; subst.
        exists 0, f, w, e, w1. repeat split; try assumption; lia.
      * (* bounce to the root *)
        destruct (IH _ None w1 res startState_inTree Hrun)
          as (k & fk & wk & e & w' & Hk & Hit & Hfk & Hcall & Hres).
        exists (S k), fk, wk, e, w'. repeat split; try assumption; [lia|].
        cbn [iterationFrom]. unfold step. rewrite Ecall.
        cbn [isNil andb]. exact Hit.
Qed.

(** When a transition returns an error, the loop ends there. *)
Lemma loop_stops ctx r k :
  forall f w fk wk nxt e w' fuel err0,
    inTree f ->
    iterationFrom k ctx r f w = Some (fk, wk) ->
    call fk ctx r wk = Ok (nxt, Some e) w' ->
    k < fuel ->
    loop fuel ctx r (Some f) err0 w = Some (Ok (Some e) w').
Proof.
  induction k as [|k IH]; intros f w fk wk nxt e w' fuel err0 Hf Hit Hcall Hk.
  - cbn [iterationFrom] in Hit. inversion Hit; subst.
    destruct fuel as [|fuel]; [lia|]. cbn [loop]. rewrite Hcall.
    pose proof (tree_discipline fk ctx r wk Hf) as Hd. rewrite Hcall in Hd.
    destruct Hd as [Herr _]. rewrite (Herr ltac:(discriminate)).
    cbn [isNil andb]. apply loop_nil.
  - cbn [iterationFrom] in Hit. unfold step in Hit.
    destruct fuel as [|fuel]; [lia|]. cbn [loop].
    pose proof (tree_discipline f ctx r w Hf) as Hd.
    destruct (call f ctx r w) as [[nxt1 err1] w1|msg w1]; [|contradiction].
    destruct Hd as [Herr Hnxt].
    destruct nxt1 as [f1|]; cbn [isNil andb] in *.
    + eapply IH; eauto. lia.
    + destruct err1 as [e1|]; cbn [isNil] in *; [discriminate|].
      eapply IH; eauto using startState_inTree. lia.
Qed.

(** *** Strings *)

Lemma HasPrefix_empty s : HasPrefix s "" = true.
Proof. destruct s; reflexivity. Qed.

Lemma Contains_empty s : Contains s "" = true.
Proof. destruct s; cbn [Contains]; rewrite HasPrefix_empty; reflexivity. Qed.

Lemma HasPrefix_refl s : HasPrefix s s = true.
Proof.
  induction s as [|c s IH]; [reflexivity|].
  cbn [HasPrefix]. rewrite Ascii.eqb_refl, IH. reflexivity.
Qed.

Lemma Contains_refl s : Contains s s = true.
Proof. destruct s; cbn [Contains]; rewrite HasPrefix_refl; reflexivity. Qed.

Lemma squash_empty : squash "" = "".
Proof. reflexivity. Qed.

Lemma isASCII_app a b :
  isASCII (a ++ b) = isASCII a && isASCII b.
Proof.
  induction a as [|c a IH]; [reflexivity|].
  cbn [append isASCII]. rewrite IH, andb_assoc. reflexivity.
Qed.

Lemma mapBytes_app f a b :
  mapBytes f (a ++ b) = mapBytes f a ++ mapBytes f b.
Proof.
  induction a as [|c a IH]; [reflexivity|].
  cbn [append mapBytes]. rewrite IH. reflexivity.
Qed.

Lemma ReplaceByte_app a b old :
  ReplaceByte (a ++ b) old "" = ReplaceByte a old "" ++ ReplaceByte b old "".
Proof.
  induction a as [|c a IH]; [reflexivity|].
  cbn [append ReplaceByte]. rewrite IH.
  destruct (Ascii.eqb c old); reflexivity.
Qed.

Lemma ReplaceByte_isASCII s old :
  isASCII s = true -> isASCII (ReplaceByte s old "") = true.
Proof.
  induction s as [|c s IH]; [reflexivity|].
  cbn [isASCII ReplaceByte]. intros H. apply andb_true_iff in H.
  destruct H as [Hc Hs]. destruct (Ascii.eqb c old); cbn [append isASCII].
  - apply IH, Hs.
  - rewrite Hc, (IH Hs). reflexivity.
Qed.

Lemma squash_ascii s :
  isASCII s = true -> squash s = ReplaceByte (mapBytes lowerByte s) space "".
Proof. intros H. unfold squash, ToLower. rewrite H. reflexivity. Qed.

(** Lower-casing and dropping spaces after the spaces were dropped
    gives the same as doing it on the original bytes. *)
Lemma lower_drop_spaces s :
  ReplaceByte (mapBytes lowerByte (ReplaceByte s space "")) space ""
  = ReplaceByte (mapBytes lowerByte s) space "".
Proof.
  induction s as [|c s IH]; [reflexivity|].
  cbn [ReplaceByte mapBytes].
  destruct (Ascii.eqb c space) eqn:E.
  - apply Ascii.eqb_eq in E. subst c.
    change (lowerByte space) with space. rewrite Ascii.eqb_refl.
    cbn [append]. exact IH.
  - cbn [mapBytes ReplaceByte]. rewrite IH. reflexivity.
Qed.

Lemma squash_drop_spaces s :
  isASCII s = true -> squash (ReplaceByte s space "") = squash s.
Proof.
  intros H. rewrite (squash_ascii s H).
  rewrite (squash_ascii _ (ReplaceByte_isASCII s space H)).
  apply lower_drop_spaces.
Qed.

Lemma squash_app a b :
  isASCII a = true -> isASCII b = true ->
  squash (a ++ b) = squash a ++ squash b.
Proof.
  intros Ha Hb. rewrite (squash_ascii a Ha), (squash_ascii b Hb).
  rewrite squash_ascii by (rewrite isASCII_app, Ha, Hb; reflexivity).
  rewrite mapBytes_app, ReplaceByte_app. reflexivity.
Qed.

(** *** Erasing and prompting *)

(** The bytes of the erase sequence: ESC [ F (to the start of the line
    above), then the two characters 2 and K, which no ESC [ introduces,
    then CR. *)
Lemma eraseSequence_bytes :
  map nat_of_ascii (list_ascii_of_string eraseSequence)
  = [27; 91; 70; 50; 75; 13].
Proof. reflexivity. Qed.

Lemma erasures_emit_erase w :
  erasures (trace (emit (EvPrint eraseSequence) w)) = S (erasures (trace w)).
Proof. cbn [emit trace erasures]. rewrite String.eqb_refl. reflexivity. Qed.

(** [selecter] erases the line once, whatever the user answered. *)
Lemma selecter_erases_once name items searcher templates w :
  erasures (trace (worldOf (selecter name items searcher templates w)))
  = S (erasures (trace w)).
Proof.
  rewrite selecter_spec. cbn [worldOf]. rewrite erasures_emit_erase.
  reflexivity.
Qed.

(** The parts of the sizing rule that hold: a failed ioctl, no template
    and fewer than four rows give 1, and twenty rows with four lines of
    details give 12. *)
Lemma viewport_fallbacks :
  (forall t msg, viewport t (WinsizeFailed msg) = 1%Z) /\
  (forall ws, viewport None ws = 1%Z) /\
  (forall t col row, (row < 4)%Z -> viewport t (Winsize col row) = 1%Z) /\
  (forall l a i s col,
      viewport (Some (mkTemplates l a i s "")) (Winsize col 2) = 1%Z) /\
  (forall l a i s d col,
      CountByte d newline = 4%Z ->
      viewport (Some (mkTemplates l a i s d)) (Winsize col 20) = 12%Z).
Proof.
  split; [|split; [|split; [|split]]].
  - intros [t|] msg; reflexivity.
  - intros [col row|msg]; reflexivity.
  - intros [t|] col row H; cbn [viewport]; [|reflexivity].
    apply Z.ltb_lt in H. rewrite H. reflexivity.
  - reflexivity.
  - intros l a i s d col H. cbn [viewport Details]. rewrite H. reflexivity.
Qed.

Lemma wrapInt_small z :
  (- 2 ^ 63 <= z < 2 ^ 63)%Z -> wrapInt z = z.
Proof. intros H. unfold wrapInt. rewrite Z.mod_small; lia. Qed.

(** From four rows on the size is the plain difference, which is below
    1 as soon as the details take up the rows that are left. *)
Lemma viewport_unfloored t col row :
  (4 <= row < 2 ^ 16)%Z ->
  (0 <= CountByte (Details t) newline < 2 ^ 62)%Z ->
  viewport (Some t) (Winsize col row)
  = (row - 4 - CountByte (Details t) newline)%Z.
Proof.
  intros Hrow Hcount. cbn [viewport].
  destruct (row <? 4)%Z eqn:E; [apply Z.ltb_lt in E; lia|].
  apply wrapInt_small. lia.
Qed.

Lemma action_returns_nil (p : Runner -> Context -> M (option error)) :
  (forall r ctx w, ProviderRun w (p r ctx w)) ->
  forall ctx r w, exists err w', call (action p) ctx r w = Ok (None, err) w'.
Proof.
  intros Hp ctx r w. unfold action, call, bind.
  pose proof (Hp r ctx w) as H.
  destruct H; cbn [ret]; eexists; eexists; reflexivity.
Qed.

Lemma root_menu_prompt ctx r w :
  prompts (trace (worldOf (call (state_Fn startState) ctx r w)))
  = menuPrompt "Options" startStates w :: prompts (trace w).
Proof.
  cbn [call startState state_Fn]. unfold startStates.
  pose proof (selectState_spec "Options" exploreState [playgroundState] w)
    as H.
  cbv zeta in H. destruct (answerAt w).
  - destruct H as [s' [_ ->]]. reflexivity.
  - rewrite H. reflexivity.
  - rewrite H. reflexivity.
  - rewrite H. reflexivity.
Qed.

(* ================================================================= *)
(** ** The navigator *)

(** C1. [Run] ends exactly when a transition returns an error: if it
    ends, some iteration's transition returned an error and no next
    state, and [Run] returns that very error (so never nil, and never
    by a panic); and as soon as a transition returns an error, [Run]
    ends with it. *)
Theorem Run_ends_exactly_on_error fuel r ctx debug w :
  (forall res,
      Run fuel r ctx debug w = Some res ->
      exists k e w',
        k < fuel /\
        transition k ctx r w = Some (Ok (None, Some e) w') /\
        res = Ok (Some e) w')
  /\
  (forall k nxt e w',
      k < fuel ->
      transition k ctx r w = Some (Ok (nxt, Some e) w') ->
      Run fuel r ctx debug w = Some (Ok (Some e) w')).
Proof.
  split.
  - intros res Hrun. unfold Run in Hrun.
    destruct (loop_returns ctx r fuel _ None w res startState_inTree Hrun)
      as (k & fk & wk & e & w' & Hk & Hit & _ & Hcall & Hres).
    exists k, e, w'. repeat split; try assumption.
    unfold transition, iteration. rewrite Hit, Hcall. reflexivity.
  - intros k nxt e w' Hk Htr. unfold transition, iteration in Htr.
    destruct (iterationFrom k ctx r (state_Fn startState) w)
      as [[fk wk]|] eqn:Hit; [|discriminate].
    inversion Htr as [Hcall]. unfold Run.
    eapply loop_stops; eauto using startState_inTree.
Qed.

(** What the loop does when a transition hands back a next state
    together with an error: it goes on with that state, and the error is
    overwritten by the next transition.  No transition of the tree does
    this ([tree_discipline]). *)
Remark loop_goes_on_with_next_state fuel ctx r f f' e err0 w w' :
  call f ctx r w = Ok (Some f', Some e) w' ->
  loop (S fuel) ctx r (Some f) err0 w = loop fuel ctx r (Some f') (Some e) w'.
Proof. intros H. cbn [loop]. rewrite H. reflexivity. Qed.

(** C10. [Run] does not look at its [debug] argument: whatever the two
    values of the flag, it makes the same calls, passes through the same
    states and returns the same error, however long it runs; it is the
    loop started at [startState], in which the flag does not occur. *)
Theorem Run_ignores_debug fuel r ctx w (debug debug' : bool) :
  Run fuel r ctx debug w = Run fuel r ctx debug' w
  /\
  Run fuel r ctx debug w
  = loop fuel ctx r (Some (state_Fn startState)) None w.
Proof.
  split.
  - destruct debug, debug'; unfold Run; reflexivity.
  - unfold Run. reflexivity.
Qed.

(* ================================================================= *)
(** ** Menus *)

(** C5. A menu without children bounces to the root: [selectState] on
    the empty list returns (nil, nil) and leaves the world as it was, so
    no prompt is opened; and whatever the children, the only prompt
    [selectState] opens is the one that lists all of them. *)
Theorem empty_menu_bounces_to_root name w :
  selectState name [] w = Ok (None, None) w
  /\
  (forall states,
     prompts (trace (worldOf (selectState name states w)))
     = match states with
       | [] => prompts (trace w)
       | _ :: _ => menuPrompt name states w :: prompts (trace w)
       end)
  /\
  (forall states,
     length (sel_Items (menuPrompt name states w)) = length states).
Proof.
  split; [reflexivity|]. split.
  - intros [|s states]; [reflexivity|].
    pose proof (selectState_spec name s states w) as H. cbv zeta in H.
    destruct (answerAt w).
    + destruct H as [s' [_ ->]]. reflexivity.
    + rewrite H. reflexivity.
    + rewrite H. reflexivity.
    + rewrite H. reflexivity.
  - intros states. cbn [menuPrompt sel_Items]. apply length_map.
Qed.

(** C6. [selectState] writes the erase sequence after its prompt only
    when the user chose an entry: on Ctrl-C, Ctrl-D or a failed prompt
    it returns before [overwritePrevLine], so the line stays.  (In
    [selecter] the line is erased once whatever the answer, see
    [selecter_erases_once].) *)
Theorem selectState_erases_only_on_success name s states w :
  erasures (trace (worldOf (selectState name (s :: states) w)))
  = match answerAt w with
    | Chosen _ => S (erasures (trace w))
    | _ => erasures (trace w)
    end
  /\
  length (prompts (trace (worldOf (selectState name (s :: states) w))))
  = S (length (prompts (trace w))).
Proof.
  pose proof (selectState_spec name s states w) as H. cbv zeta in H.
  destruct (answerAt w).
  - destruct H as [s' [_ ->]]. cbn [worldOf].
    rewrite erasures_emit_erase. split; reflexivity.
  - rewrite H. split; reflexivity.
  - rewrite H. split; reflexivity.
  - rewrite H. split; reflexivity.
Qed.

(* ================================================================= *)
(** ** Searching *)

Ltac searcher_cases l i :=
  intros; cbv beta delta [selectState_searcher Schemas_searcher
    Tables_searcher Views_searcher TablesBySchema_searcher
    TablesBySizeWithIndex_searcher TablesByRows_searcher
    ColumnsFrequency_searcher];
  destruct (nth_error l i); cbn [option_map]; [|reflexivity].

(** C7. The empty query matches every item: each searcher of the
    program answers [true] to it at every index of its list. *)
Theorem empty_query_matches_everything :
  (forall states i,
     selectState_searcher states "" i
     = option_map (fun _ => true) (nth_error states i)) /\
  (forall schemas i,
     Schemas_searcher schemas "" i
     = option_map (fun _ => true) (nth_error schemas i)) /\
  (forall tables i,
     Tables_searcher tables "" i
     = option_map (fun _ => true) (nth_error tables i)) /\
  (forall views i,
     Views_searcher views "" i
     = option_map (fun _ => true) (nth_error views i)) /\
  (forall summaries i,
     TablesBySchema_searcher summaries "" i
     = option_map (fun _ => true) (nth_error summaries i)) /\
  (forall tables i,
     TablesBySizeWithIndex_searcher tables "" i
     = option_map (fun _ => true) (nth_error tables i)) /\
  (forall tables i,
     TablesByRows_searcher tables "" i
     = option_map (fun _ => true) (nth_error tables i)) /\
  (forall cols i,
     ColumnsFrequency_searcher cols "" i
     = option_map (fun _ => true) (nth_error cols i)).
Proof.
  repeat apply conj.
  - intros l i. searcher_cases l i.
    fold (squash ""). rewrite squash_empty, Contains_empty. reflexivity.
  - intros l i. searcher_cases l i.
    fold (squash ""). rewrite squash_empty, Contains_empty. reflexivity.
  - intros l i. searcher_cases l i.
    fold (squash ""). rewrite squash_empty, Contains_empty. reflexivity.
  - intros l i. searcher_cases l i.
    fold (squash ""). rewrite squash_empty, Contains_empty. reflexivity.
  - intros l i. searcher_cases l i.
    fold (squash ""). rewrite squash_empty, Contains_empty. reflexivity.
  - intros l i. searcher_cases l i.
    fold (squash ""). rewrite squash_empty, Contains_empty. reflexivity.
  - intros l i. searcher_cases l i.
    fold (squash ""). rewrite squash_empty, Contains_empty. reflexivity.
  - intros l i. searcher_cases l i.
    fold (squash ""). rewrite squash_empty, Contains_empty. reflexivity.
Qed.

(* ================================================================= *)
(** ** Errors *)

Lemma selectError_interrupt a :
  selectError a = Some promptui_ErrInterrupt <-> a = Interrupted.
Proof. destruct a; cbn [selectError]; split; congruence. Qed.

(** The error of a failed transition of the tree is
    [promptui.ErrInterrupt] exactly when the last call before it
    returned was a prompt that the user interrupted. *)
Lemma failed_transition_cause f ctx r w e w' :
  inTree f ->
  call f ctx r w = Ok (None, Some e) w' ->
  e = promptui_ErrInterrupt <->
  exists sel, lastCall (trace w') = Some (EvSelect sel Interrupted).
Proof.
  intros Hf Hcall. pose proof (tree_transition f Hf ctx r w) as H.
  rewrite Hcall in H. inversion H as [| | sel a e' Ha | err w2 Hp]; subst.
  - (* the prompt of a menu failed *)
    cbn [emit trace lastCall]. split.
    + intros ->. apply selectError_interrupt in Ha. subst a. eauto.
    + intros [sel' E]. inversion E; subst. cbn in Ha. congruence.
  - inversion Hp as [ctx' q res e' Hne | ctx' q res sel w1 Ha]; subst.
    + (* the query failed *)
      cbn [emit trace lastCall]. split; [contradiction|].
      intros [sel' E]. discriminate.
    + (* the prompt that shows the rows failed *)
      cbn [emit trace lastCall tick]. split.
      * intros ->. apply selectError_interrupt in Ha.
        rewrite Ha. eauto.
      * intros [sel' E]. inversion E as [[Hsel Hans]].
        rewrite Hans in Ha. cbn in Ha. congruence.
Qed.

(* ================================================================= *)
(** ** Where the code falls short *)

(** C3. [selectSize] has no floor at 1 once the terminal has four rows
    or more: with four rows and a template without details it returns
    0, where the rule max(1, rows - 4 - lines) gives 1; and with five
    rows the prompt of [Schemas], whose details span four lines, is
    given the size -3. *)
Theorem selectSize_has_no_floor :
  selectSize (Some plainTemplates) (scriptedWorld (Chosen 0) [] 4)
  = Ok 0%Z (tick (scriptedWorld (Chosen 0) [] 4))
  /\
  Z.max 1 (4 - 4 - CountByte (Details plainTemplates) newline) = 1%Z
  /\
  map sel_Size
    (prompts (trace (worldOf
       (Schemas theRunner Background
                (scriptedWorld (Chosen 0) [publicSchema] 5)))))
  = [(-3)%Z].
Proof. repeat apply conj; vm_compute; reflexivity. Qed.

(** C4. Only [Views] and [MaterializedViews] put the placeholder in
    place of an empty result.  When the query returns no rows, the
    other providers that show rows hand the empty list to the prompt
    ([Version] fails with [sql.ErrNoRows] and shows nothing). *)
Theorem only_views_substitute_placeholder :
  map (fun p => itemsShown p (scriptedWorld (Chosen 0) [] 24)) providers
  = [ [[]]; [[]]; [[]];
      [[ItemView backView]]; [[ItemView backView]];
      [[]]; [[]]; [[]]; [[]]; [[]]; [[]]; [[]];
      [] ].
Proof. vm_compute. reflexivity. Qed.


(* ================================================================= *)
(** ** Further properties *)

(** *** The steps of the providers *)

Lemma searcher_fits {A : Type} (l : list A) (s : Searcher) (n : nat) :
  (forall input index, s input index = None <-> nth_error l index = None) ->
  n = length l ->
  SearcherFor n (Some s).
Proof.
  intros H -> input index. rewrite H. apply nth_error_None.
Qed.

Ltac searcher_defined l :=
  intros input index;
  cbv beta delta [selectState_searcher Schemas_searcher
    Tables_searcher Views_searcher TablesBySchema_searcher
    TablesBySizeWithIndex_searcher TablesByRows_searcher
    ColumnsFrequency_searcher selectStr_searcher];
  destruct (nth_error l index); split; intros; congruence.

Ltac fits_items l :=
  apply (searcher_fits l);
  [searcher_defined l | rewrite ?length_map; reflexivity].

Ltac provider_steps ctx' :=
  intros;
  match goal with
  | |- ProviderSteps _ ?w (?p ?r ?ctx ?w) => unfold p
  end;
  unfold bind, SelectContext;
  match goal with
  | |- context [database (env ?w) (clock ?w)] =>
      destruct (database (env w) (clock w)) as [rows| | |msg] eqn:?
  end;
  cbn [queryError];
  [ rewrite selecter_spec; eapply (FetchShown ctx');
    [eassumption | reflexivity | ]
  | eapply (FetchFails ctx'); [eassumption | left; reflexivity] ..].

Ltac fits :=
  match goal with
  | |- SearcherFor _ (Some (_ ?l)) => fits_items l
  | |- SearcherFor _ None => exact I
  end.

Lemma Schemas_steps r ctx w :
  ProviderSteps (WithTimeout ctx 5) w (Schemas r ctx w).
Proof. provider_steps (WithTimeout ctx 5). fits. Qed.

Lemma SchemasUserCreated_steps r ctx w :
  ProviderSteps (WithTimeout ctx 5) w (SchemasUserCreated r ctx w).
Proof. provider_steps (WithTimeout ctx 5). fits. Qed.

Lemma Tables_steps r ctx w :
  ProviderSteps (WithTimeout ctx 5) w (Tables r ctx w).
Proof. provider_steps (WithTimeout ctx 5). fits. Qed.

Lemma Views_steps r ctx w : ProviderSteps ctx w (Views r ctx w).
Proof. provider_steps ctx. fits. Qed.

Lemma MaterializedViews_steps r ctx w :
  ProviderSteps ctx w (MaterializedViews r ctx w).
Proof. provider_steps ctx. fits. Qed.

Lemma TablesBySchema_steps r ctx w :
  ProviderSteps ctx w (TablesBySchema r ctx w).
Proof. provider_steps ctx. fits. Qed.

Lemma TablesBySize_steps r ctx w :
  ProviderSteps (WithTimeout ctx 5) w (TablesBySize r ctx w).
Proof. provider_steps (WithTimeout ctx 5). fits. Qed.

Lemma TablesBySizeWithIndex_steps r ctx w :
  ProviderSteps ctx w (TablesBySizeWithIndex r ctx w).
Proof. provider_steps ctx. fits. Qed.

Lemma TablesByRows_steps r ctx w :
  ProviderSteps ctx w (TablesByRows r ctx w).
Proof. provider_steps ctx. fits. Qed.

Lemma TablesEmpty_steps r ctx w : ProviderSteps ctx w (TablesEmpty r ctx w).
Proof. provider_steps ctx. fits. Qed.

Lemma TablesGroupByRows_steps r ctx w :
  ProviderSteps ctx w (TablesGroupByRows r ctx w).
Proof. provider_steps ctx. fits. Qed.

Lemma ColumnsFrequency_steps r ctx w :
  ProviderSteps ctx w (ColumnsFrequency r ctx w).
Proof. provider_steps ctx. fits. Qed.

Lemma Version_steps r ctx w : ProviderSteps ctx w (Version r ctx w).
Proof.
  unfold Version, bind, GetContext.
  destruct (database (env w) (clock w)) as [[|row rows]| | |msg] eqn:E;
    cbn [queryError].
  - eapply (FetchFails ctx); [exact E | right; split; reflexivity].
  - rewrite selecter_spec.
    eapply (FetchShown ctx); [exact E | reflexivity | exact I].
  - eapply (FetchFails ctx); [exact E | left; reflexivity].
  - eapply (FetchFails ctx); [exact E | left; reflexivity].
  - eapply (FetchFails ctx); [exact E | left; reflexivity].
Qed.

Create HintDb steps.
#[local] Hint Resolve Schemas_steps SchemasUserCreated_steps Tables_steps
  Views_steps MaterializedViews_steps TablesBySchema_steps TablesBySize_steps
  TablesBySizeWithIndex_steps TablesByRows_steps TablesEmpty_steps
  TablesGroupByRows_steps ColumnsFrequency_steps Version_steps : steps.

(** Every provider makes its steps under some context. *)
Lemma provider_steps_exist p :
  In p providers ->
  forall r ctx w, exists ctx', ProviderSteps ctx' w (p r ctx w).
Proof.
  unfold providers. cbn [In]. intros H r ctx w.
  repeat (destruct H as [<-|H]); try contradiction; eauto with steps.
Qed.

Lemma tree_shape f : inTree f -> TreeShape f.
Proof.
  unfold inTree, menuStates, actionStates, statStates.
  cbn [app map In state_Fn].
  intros H.
  repeat (destruct H as [<-|H]); try contradiction.
  1: eapply (IsMenu _ "Options" exploreState [playgroundState]);
       [members | reflexivity].
  1: eapply (IsMenu _ "Where too?" schemaState
                    [tableState; viewState; statsState]);
       [members | reflexivity].
  1: eapply (IsMenu _ "Schema Options" schemaState_all
                    [schemaState_userCreated]);
       [members | reflexivity].
  1: eapply (IsMenu _ "Views" viewState_all [viewState_materialized]);
       [members | reflexivity].
  1: eapply (IsMenu _ "Stats"); [|unfold statStates; reflexivity]; members.
  1: apply IsPlayground; reflexivity.
  all: eapply IsAction; [|reflexivity];
    apply provider_steps_exist; unfold providers; cbn [In]; auto 20.
Qed.

(** *** The steps of the transitions *)

(** What [selectState] does on a menu with children, with the index
    it picks. *)
Lemma selectState_steps name s states w :
  let w1 := emit (EvSelect (menuPrompt name (s :: states) w) (answerAt w))
                 (tick w) in
  match answerAt w with
  | Chosen k =>
      exists s',
        nth_error (s :: states) (Nat.min k (length (s :: states) - 1))
        = Some s' /\
        selectState name (s :: states) w
        = Ok (Some (state_Fn s'), None) (emit (EvPrint eraseSequence) w1)
  | a => selectState name (s :: states) w = Ok (None, selectError a) w1
  end.
Proof.
  intros w1. unfold selectState. cbn [length Nat.eqb].
  unfold bind. rewrite selectSize_spec.
  unfold Select_Run. cbn [env clock tick].
  fold (answerAt w). fold (menuPrompt name (s :: states) w).
  destruct (answerAt w) as [k| | |msg] eqn:Ea; cbn [selectError];
    try reflexivity.
  rewrite overwritePrevLine_spec.
  cbn [sel_Items menuPrompt]. rewrite length_map.
  destruct (nth_error_clamped s states k) as [y [Hy _]].
  exists y. split; [exact Hy|]. rewrite Hy. reflexivity.
Qed.

Lemma tree_steps f :
  inTree f -> forall ctx r w, TransitionSteps w (call f ctx r w).
Proof.
  intros Hf ctx r w.
  destruct (tree_shape f Hf) as [Hp|name s states Hin Hm|p Hp Ha].
  - rewrite Hp. apply StepBounces.
  - rewrite Hm. pose proof (selectState_steps name s states w) as H.
    cbv zeta in H. destruct (answerAt w) as [k| | |msg] eqn:Ea.
    + destruct H as [s' [Hs' ->]].
      apply StepChosen; try assumption.
      apply Hin. eapply nth_error_In, Hs'.
    + rewrite H. cbn [selectError]. rewrite <- Ea.
      apply StepMenuFails. rewrite Ea. reflexivity.
    + rewrite H. cbn [selectError]. rewrite <- Ea.
      apply StepMenuFails. rewrite Ea. reflexivity.
    + rewrite H. cbn [selectError]. rewrite <- Ea.
      apply StepMenuFails. rewrite Ea. reflexivity.
  - rewrite Ha. unfold action, call, bind.
    destruct (Hp r ctx w) as [ctx' H].
    remember (p r ctx w) as res eqn:E.
    destruct H; cbn [ret]; apply (StepAction w ctx').
    + eapply FetchFails; eassumption.
    + eapply FetchShown; eassumption.
Qed.

(** The oracle stays the same and the clock never goes back. *)
Lemma tree_steps_world f ctx r w :
  inTree f ->
  env (worldOf (call f ctx r w)) = env w /\
  clock w <= clock (worldOf (call f ctx r w)).
Proof.
  intros Hf. destruct (tree_steps f Hf ctx r w) as [| | |ctx' err w' Hp];
    cbn [worldOf emit tick env clock]; try (split; [reflexivity|lia]).
  inversion Hp as [q res e Hdb Herr
                  |q res name items srch tmpl w1 Hdb Hq Hs]; subst;
    try subst w1; cbn [worldOf emit tick env clock];
    split; try reflexivity; lia.
Qed.

Lemma step_worldOf ctx r f w f' w' :
  step ctx r f w = Some (f', w') -> w' = worldOf (call f ctx r w).
Proof.
  unfold step. destruct (call f ctx r w) as [[nxt err] w1|msg w1];
    [|discriminate].
  destruct (if isNil nxt && isNil err then Some (state_Fn startState)
            else nxt); [|discriminate].
  intros H. inversion H. reflexivity.
Qed.

Lemma step_inTree ctx r f w f' w' :
  inTree f -> step ctx r f w = Some (f', w') -> inTree f'.
Proof.
  intros Hf. unfold step.
  pose proof (tree_discipline f ctx r w Hf) as Hd.
  destruct (call f ctx r w) as [[nxt err] w1|msg w1]; [|contradiction].
  destruct Hd as [_ Hnxt].
  destruct nxt as [f1|]; cbn [isNil andb].
  - intros H. inversion H; subst. apply Hnxt. reflexivity.
  - destruct err; cbn [isNil]; [discriminate|].
    intros H. inversion H; subst. apply startState_inTree.
Qed.

(** A property of the world that every step of the loop keeps holds
    at the head of every iteration. *)
Lemma iteration_invariant (I : World -> Prop) ctx r :
  (forall f w f' w',
      inTree f -> I w -> step ctx r f w = Some (f', w') -> I w') ->
  forall k f w fk wk,
    inTree f -> I w ->
    iterationFrom k ctx r f w = Some (fk, wk) ->
    I wk /\ inTree fk.
Proof.
  intros Hstep. induction k as [|k IH]; intros f w fk wk Hf Hw Hit.
  - inversion Hit; subst. split; assumption.
  - cbn [iterationFrom] in Hit.
    destruct (step ctx r f w) as [[f' w']|] eqn:Es; [|discriminate].
    apply (IH f' w'); try assumption.
    + eapply step_inTree; eassumption.
    + eapply Hstep; eassumption.
Qed.

(** A property of the world that every transition of the tree keeps
    holds in the world [Run] ends in. *)
Lemma Run_invariant (I : World -> Prop) ctx r :
  (forall f w, inTree f -> I w -> I (worldOf (call f ctx r w))) ->
  forall fuel debug w res,
    I w -> Run fuel r ctx debug w = Some res -> I (worldOf res).
Proof.
  intros Hcall fuel debug w res Hw Hrun. unfold Run in Hrun.
  destruct (loop_returns ctx r fuel _ None w res startState_inTree Hrun)
    as (k & fk & wk & e & w' & _ & Hit & Hfk & Hc & ->).
  assert (Hwk : I wk /\ inTree fk).
  { apply (iteration_invariant I ctx r) with (k := k)
      (f := state_Fn startState) (w := w);
      auto using startState_inTree.
    intros f0 w0 f' w0' Hf0 Hw0 Hs.
    rewrite (step_worldOf _ _ _ _ _ _ Hs). apply Hcall; assumption. }
  cbn [worldOf]. pose proof (Hcall fk wk Hfk (proj1 Hwk)) as H.
  rewrite Hc in H. exact H.
Qed.

(** *** Prompts *)

Lemma menuPrompt_wellFormed name s states w :
  wellFormed (menuPrompt name (s :: states) w).
Proof.
  split; [reflexivity|]. split; [reflexivity|].
  cbn [menuPrompt sel_Items sel_Searcher]. fits.
Qed.

Lemma selecterPrompt_wellFormed name items searcher templates w :
  SearcherFor (length items) searcher ->
  wellFormed (selecterPrompt name items searcher templates w).
Proof.
  intros H. split; [reflexivity|]. split; [reflexivity|]. exact H.
Qed.

Lemma transition_keeps_wellFormed f ctx r w :
  inTree f ->
  Forall wellFormed (prompts (trace w)) ->
  Forall wellFormed (prompts (trace (worldOf (call f ctx r w)))).
Proof.
  intros Hf Hw.
  destruct (tree_steps f Hf ctx r w) as [| | |ctx' err w' Hp];
    cbn [worldOf emit trace prompts]; try assumption.
  - constructor; [apply menuPrompt_wellFormed|assumption].
  - constructor; [apply menuPrompt_wellFormed|assumption].
  - inversion Hp as [q res e Hdb Herr
                    |q res name items srch tmpl w1 Hdb Hq Hs]; subst;
      try subst w1; cbn [worldOf emit tick trace prompts]; try assumption.
    constructor; [apply selecterPrompt_wellFormed|]; assumption.
Qed.

(** X1. Every prompt the navigator opens hides the help line, starts
    in search mode exactly when it has a searcher, and has a searcher
    that answers at exactly the indices of its items (so promptui can
    never make a searcher index out of range): this holds at the head
    of every iteration of [Run] and in the world [Run] ends in. *)
Theorem every_prompt_is_wellFormed r ctx w :
  Forall wellFormed (prompts (trace w)) ->
  (forall k f wk,
      iteration k ctx r w = Some (f, wk) ->
      Forall wellFormed (prompts (trace wk)))
  /\
  (forall fuel debug res,
      Run fuel r ctx debug w = Some res ->
      Forall wellFormed (prompts (trace (worldOf res)))).
Proof.
  intros Hw. split.
  - intros k f wk Hit.
    apply (iteration_invariant
             (fun w => Forall wellFormed (prompts (trace w))) ctx r)
      with (k := k) (f := state_Fn startState) (w := w) (fk := f);
      auto using startState_inTree.
    intros f0 w0 f' w0' Hf0 Hw0 Hs.
    rewrite (step_worldOf _ _ _ _ _ _ Hs).
    apply transition_keeps_wellFormed; assumption.
  - intros fuel debug res Hrun.
    apply (Run_invariant
             (fun w => Forall wellFormed (prompts (trace w))) ctx r)
      with (fuel := fuel) (debug := debug) (w := w); try assumption.
    intros f0 w0. apply transition_keeps_wellFormed.
Qed.

(** *** Erasing *)

Lemma step_keeps_balance ctx r f w f' w' :
  inTree f ->
  step ctx r f w = Some (f', w') ->
  erasures (trace w') + length (prompts (trace w))
  = erasures (trace w) + length (prompts (trace w')).
Proof.
  intros Hf Hs. unfold step in Hs.
  pose proof (tree_steps f Hf ctx r w) as H.
  destruct (call f ctx r w) as [[nxt err] w1|msg w1]; [|discriminate].
  assert (w' = w1 /\ (nxt = None -> err = None)) as [-> Herr].
  { destruct nxt, err; cbn [isNil andb] in Hs; inversion Hs;
      split; congruence. }
  clear Hs.
  inversion H as [| name s states k s' Ha Hn Hin
                  | name s states e Ha
                  | ctx' err' w2 Hp]; subst.
  - reflexivity.
  - rewrite erasures_emit_erase. cbn [emit tick trace prompts erasures length].
    lia.
  - specialize (Herr eq_refl). discriminate.
  - inversion Hp as [q res e Hdb He
                    |q res name items srch tmpl w3 Hdb Hq Hs]; subst.
    + specialize (Herr eq_refl). discriminate.
    + subst w3. rewrite erasures_emit_erase.
      cbn [emit tick trace prompts erasures length]. lia.
Qed.

(** X2. While [Run] is running every prompt it has opened has been
    erased again: at the head of each iteration the erase sequence was
    written as often as prompts were opened.  When [Run] ends, at most
    the last prompt is left. *)
Theorem prompts_are_erased_while_running r ctx w :
  (forall k f wk,
      iteration k ctx r w = Some (f, wk) ->
      erasures (trace wk) + length (prompts (trace w))
      = erasures (trace w) + length (prompts (trace wk)))
  /\
  (forall fuel debug res,
      Run fuel r ctx debug w = Some res ->
      erasures (trace (worldOf res)) + length (prompts (trace w))
      <= erasures (trace w) + length (prompts (trace (worldOf res)))
      <= S (erasures (trace (worldOf res)) + length (prompts (trace w)))).
Proof.
  assert (Hheads : forall k f wk,
      iteration k ctx r w = Some (f, wk) ->
      erasures (trace wk) + length (prompts (trace w))
      = erasures (trace w) + length (prompts (trace wk))).
  { intros k f wk Hit.
    apply (iteration_invariant
             (fun w0 => erasures (trace w0) + length (prompts (trace w))
                        = erasures (trace w) + length (prompts (trace w0)))
             ctx r)
      with (k := k) (f := state_Fn startState) (w := w) (fk := f);
      auto using startState_inTree.
    intros f0 w0 f' w0' Hf0 Hw0 Hs.
    pose proof (step_keeps_balance ctx r f0 w0 f' w0' Hf0 Hs). lia. }
  split; [exact Hheads|].
  intros fuel debug res Hrun. unfold Run in Hrun.
  destruct (loop_returns ctx r fuel _ None w res startState_inTree Hrun)
    as (k & fk & wk & e & w' & _ & Hit & Hfk & Hc & ->).
  pose proof (Hheads k fk wk Hit) as Hb.
  pose proof (tree_steps fk Hfk ctx r wk) as H. rewrite Hc in H.
  cbn [worldOf].
  inversion H as [| | name s states e' Ha | ctx' err' w2 Hp]; subst.
  - cbn [emit tick trace prompts erasures length]. lia.
  - inversion Hp as [q res e' Hdb He
                    |q res name items srch tmpl w3 Hdb Hq Hs]; subst.
    + cbn [emit tick trace prompts erasures length]. lia.
    + subst w3. rewrite erasures_emit_erase.
      cbn [emit tick trace prompts erasures length]. lia.
Qed.

(** *** Leaving *)

Lemma chosen_before_close n w k :
  inputCloses n w -> answerAt w = Chosen k -> S (clock w) < n.
Proof.
  intros Hclose Ha. destruct (Nat.lt_ge_cases (S (clock w)) n) as [H|H];
    [exact H|].
  exfalso. apply (Hclose _ H). fold (answerAt w). rewrite Ha. reflexivity.
Qed.

(** From any state of the tree the loop either ends within two
    iterations, or goes on from a state of the tree with the clock
    advanced, which it only does before the input closes. *)
Lemma loop_progress ctx r n f err0 w :
  inTree f ->
  inputCloses n w ->
  (exists e w', forall fuel,
      loop (S (S fuel)) ctx r (Some f) err0 w = Some (Ok (Some e) w'))
  \/
  (exists f' w' j,
      inTree f' /\ inputCloses n w' /\ clock w < clock w' /\
      S (clock w) < n /\
      forall fuel,
        loop (j + fuel) ctx r (Some f) err0 w
        = loop fuel ctx r (Some f') None w').
Proof.
  intros Hf Hclose.
  pose proof (tree_steps f Hf ctx r w) as H.
  remember (call f ctx r w) as res eqn:Ecall.
  destruct H as [| name s states k s' Ha Hn Hin
                 | name s states e Ha
                 | ctx' err w2 Hp].
  - (* bounce: the root menu is next, in the same world *)
    pose proof (selectState_steps "Options" exploreState [playgroundState] w)
      as Hroot.
    cbv zeta in Hroot.
    destruct (answerAt w) as [k| | |msg] eqn:Ea.
    + destruct Hroot as [s' [Hs' Hsel]]. right.
      eexists (state_Fn s'), _, 2. repeat apply conj; cycle 4.
      * intros fuel. cbn [Nat.add loop]. rewrite <- Ecall.
        cbn [isNil andb].
        change (call (state_Fn startState) ctx r w)
          with (selectState "Options" [exploreState; playgroundState] w).
        rewrite Hsel. reflexivity.
      * apply (menu_members_inTree startStates); [|eapply nth_error_In, Hs'].
        intros x Hx. unfold menuStates, actionStates, statStates,
          startStates in *. cbn [app In] in *. intuition auto 25.
      * exact Hclose.
      * cbn [emit tick clock]. lia.
      * eapply chosen_before_close; eassumption.
    + left. eexists _, _. intros fuel. cbn [loop]. rewrite <- Ecall.
      cbn [isNil andb].
      change (call (state_Fn startState) ctx r w)
        with (selectState "Options" [exploreState; playgroundState] w).
      rewrite Hroot. cbn [selectError isNil andb]. first [reflexivity | apply loop_nil].
    + left. eexists _, _. intros fuel. cbn [loop]. rewrite <- Ecall.
      cbn [isNil andb].
      change (call (state_Fn startState) ctx r w)
        with (selectState "Options" [exploreState; playgroundState] w).
      rewrite Hroot. cbn [selectError isNil andb]. first [reflexivity | apply loop_nil].
    + left. eexists _, _. intros fuel. cbn [loop]. rewrite <- Ecall.
      cbn [isNil andb].
      change (call (state_Fn startState) ctx r w)
        with (selectState "Options" [exploreState; playgroundState] w).
      rewrite Hroot. cbn [selectError isNil andb]. first [reflexivity | apply loop_nil].
  - (* an entry of a menu was chosen *)
    right. eexists (state_Fn s'), _, 1. repeat apply conj; cycle 4.
    + intros fuel. cbn [Nat.add loop]. rewrite <- Ecall. reflexivity.
    + exact Hin.
    + exact Hclose.
    + cbn [emit tick clock]. lia.
    + eapply chosen_before_close; eassumption.
  - (* the prompt of a menu failed *)
    left. exists e. eexists. intros fuel. cbn [loop]. rewrite <- Ecall.
    cbn [isNil andb]. first [reflexivity | apply loop_nil].
  - inversion Hp as [q res e Hdb He
                    |q res name items srch tmpl w1 Hdb Hq Hs Hres]; subst.
    + (* the query failed *)
      left. exists e. eexists. intros fuel. cbn [loop]. rewrite <- Ecall.
      cbn [isNil andb]. first [reflexivity | apply loop_nil].
    + destruct (selectError (answerAt w1)) as [e|] eqn:Ee.
      * (* the prompt that shows the rows failed *)
        left. exists e. eexists. intros fuel. cbn [loop]. rewrite <- Ecall.
        cbn [isNil andb]. first [reflexivity | apply loop_nil].
      * (* the rows were shown: back to the root *)
        right. eexists (state_Fn startState), _, 1.
        repeat apply conj; cycle 4.
        -- intros fuel. cbn [Nat.add loop]. rewrite <- Ecall. reflexivity.
        -- apply startState_inTree.
        -- exact Hclose.
        -- subst w1. cbn [emit tick clock]. lia.
        -- destruct (Nat.lt_ge_cases (S (clock w)) n) as [Hlt|Hge];
             [exact Hlt|].
           exfalso. apply (Hclose (S (S (clock w)))); [lia|].
           exact Ee.
Qed.

Lemma loop_ends_when_input_closes ctx r n m :
  forall f err0 w,
    inTree f ->
    inputCloses n w ->
    n <= clock w + m ->
    exists fuel e w',
      loop fuel ctx r (Some f) err0 w = Some (Ok (Some e) w').
Proof.
  induction m as [|m IH]; intros f err0 w Hf Hclose Hm;
    destruct (loop_progress ctx r n f err0 w Hf Hclose)
      as [(e & w' & Hend)
         |(f' & w' & j & Hf' & Hclose' & Hclock & Hbefore & Hgo)].
  - exists 2, e, w'. apply Hend.
  - lia.
  - exists 2, e, w'. apply Hend.
  - destruct (IH f' None w' Hf' Hclose' ltac:(lia)) as (fuel & e & w2 & Hl).
    exists (j + fuel), e, w2. rewrite Hgo. exact Hl.
Qed.

(** X3. [Run] returns once the input is closed: if from some call on
    every prompt fails (the user only presses Ctrl-C, or stdin is at its
    end), then for enough iterations [Run] ends with an error, whatever
    the database and the terminal answer. *)
Theorem Run_ends_when_input_closes r ctx debug w n :
  inputCloses n w ->
  exists fuel e w', Run fuel r ctx debug w = Some (Ok (Some e) w').
Proof.
  intros Hclose. unfold Run.
  apply (loop_ends_when_input_closes ctx r n n);
    auto using startState_inTree. lia.
Qed.

(** *** The errors of [Run] *)

(** The error of a failed transition of the tree comes from its last
    call: it is [context.Canceled] exactly when that was a cancelled
    query, and it is never [errFinished]. *)
Lemma failed_transition_error f ctx r w e w' :
  inTree f ->
  call f ctx r w = Ok (None, Some e) w' ->
  e <> errFinished /\
  (e = context_Canceled <->
   exists ctx' q, lastCall (trace w') = Some (EvQuery ctx' q QueryCanceled)).
Proof.
  intros Hf Hcall. pose proof (tree_steps f Hf ctx r w) as H.
  rewrite Hcall in H.
  inversion H as [| | name s states e' Ha | ctx' err' w2 Hp]; subst.
  - cbn [emit tick trace lastCall].
    destruct (answerAt w); cbn [selectError] in Ha; inversion Ha; subst;
      (split; [discriminate|]); split; try discriminate;
      intros (c & q & E); discriminate.
  - inversion Hp as [q res e' Hdb He
                    |q res name items srch tmpl w3 Hdb Hq Hs Hres]; subst.
    + cbn [emit trace lastCall].
      destruct He as [He|[Hrows ->]].
      * destruct (database (env w) (clock w)); cbn [queryError] in He;
          inversion He; subst; (split; [discriminate|]); split; intros Hx;
          try discriminate;
          try (destruct Hx as (c & q' & E); discriminate); eauto.
      * split; [discriminate|]. split; [discriminate|].
        intros (c & q' & E). rewrite Hrows in E. discriminate.
    + cbn [emit tick trace lastCall]. clear Hp H Hcall.
      destruct (answerAt w3); cbn [selectError] in Hres; inversion Hres;
        subst; (split; [discriminate|]); split; try discriminate;
        intros (c & q' & E); discriminate.
Qed.

(** X4. [Run] never returns [errFinished], and it returns
    [context.Canceled] exactly when the last call was a query that was
    cancelled; so with [debug] on [main] stays silent for exactly that
    error and logs every other error of [Run], an interrupted prompt
    included. *)
Theorem Run_error_is_logged_unless_query_cancelled
    fuel r ctx debug w e w' :
  Run fuel r ctx debug w = Some (Ok (Some e) w') ->
  e <> errFinished /\
  (e = context_Canceled <->
   exists ctx' q, lastCall (trace w') = Some (EvQuery ctx' q QueryCanceled))
  /\
  mainLogs true (Some e) = negb (error_eqb e context_Canceled) /\
  mainLogs false (Some e) = false.
Proof.
  intros Hrun. unfold Run in Hrun.
  destruct (loop_returns ctx r fuel _ None w _ startState_inTree Hrun)
    as (k & fk & wk & e1 & w1 & _ & _ & Hfk & Hcall & Hres).
  inversion Hres; subst.
  destruct (failed_transition_error fk ctx r wk e1 w1 Hfk Hcall)
    as [Hfin Hcan].
  repeat apply conj; try assumption; try reflexivity.
  - apply Hcan.
  - apply Hcan.
  - cbn [mainLogs andb]. destruct e1; try reflexivity. contradiction.
Qed.

(** *** Queries *)

Lemma steps_queryContexts ctx' w res :
  ProviderSteps ctx' w res ->
  queryContexts (trace (worldOf res)) = ctx' :: queryContexts (trace w).
Proof.
  intros H. destruct H; try subst w1; reflexivity.
Qed.

(** X5. A query that fails ends the run at once: whichever provider
    the action runs, [Run]'s loop returns the error of the query as it
    is, and nothing but the query happened: no prompt was opened and
    nothing was erased. *)
Theorem failed_query_ends_the_run p fuel ctx r err0 w e :
  In p providers ->
  queryError (database (env w) (clock w)) = Some e ->
  exists w',
    loop (S fuel) ctx r (Some (action p)) err0 w = Some (Ok (Some e) w') /\
    prompts (trace w') = prompts (trace w) /\
    erasures (trace w') = erasures (trace w) /\
    length (trace w') = S (length (trace w)).
Proof.
  intros Hp He.
  destruct (provider_steps_exist p Hp r ctx w) as [ctx' H].
  remember (p r ctx w) as res eqn:E.
  destruct H as [q res e' Hdb He'
                |q res name items srch tmpl w1 Hdb Hq Hs].
  - assert (e' = e) as ->.
    { rewrite Hdb in He. destruct He' as [He'|[-> _]];
        [congruence|discriminate]. }
    eexists. split.
    + cbn [loop]. unfold action, call, bind. rewrite <- E.
      cbn [ret isNil andb]. apply loop_nil.
    + repeat split.
  - rewrite Hdb in He. congruence.
Qed.

(** X6. Four providers bound their query by a timeout of five seconds
    on the caller's context; the nine others query under the caller's
    context as it is. *)
Theorem only_four_queries_have_a_timeout r ctx w :
  (forall p, In p timedProviders ->
     queryContexts (trace (worldOf (p r ctx w)))
     = WithTimeout ctx 5 :: queryContexts (trace w))
  /\
  (forall p, In p untimedProviders ->
     queryContexts (trace (worldOf (p r ctx w)))
     = ctx :: queryContexts (trace w)).
Proof.
  split; intros p Hp.
  - unfold timedProviders in Hp. cbn [In] in Hp.
    repeat (destruct Hp as [<-|Hp]); try contradiction;
      apply steps_queryContexts; auto with steps.
  - unfold untimedProviders in Hp. cbn [In] in Hp.
    repeat (destruct Hp as [<-|Hp]); try contradiction;
      apply steps_queryContexts; auto with steps.
Qed.

(** X7. [Views] and [MaterializedViews] never show an empty list: when
    the query returns no row, the list is the one placeholder, and when
    it returns rows, the list is those rows and nothing else. *)
Theorem views_show_rows_or_the_placeholder p r ctx w rows :
  In p [Views; MaterializedViews] ->
  database (env w) (clock w) = Rows rows ->
  map sel_Items (prompts (trace (worldOf (p r ctx w))))
  = match rows with
    | [] => [ItemView backView]
    | _ :: _ => map ItemView (map scanView rows)
    end :: map sel_Items (prompts (trace w)).
Proof.
  intros Hp Hdb. cbn [In] in Hp.
  destruct Hp as [<-|[<-|[]]].
  - unfold Views, bind, SelectContext. rewrite Hdb. cbn [queryError].
    rewrite selecter_spec. destruct rows; reflexivity.
  - unfold MaterializedViews, bind, SelectContext. rewrite Hdb.
    cbn [queryError]. rewrite selecter_spec. destruct rows; reflexivity.
Qed.

(** *** Choosing *)

(** X8. A menu hands back the transition of the entry under the
    cursor: for a cursor on the [k]-th child, [selectState] returns that
    child's [Fn] and no error, after one prompt that lists all children,
    erased once. *)
Theorem selectState_returns_the_chosen_child name states w k s :
  nth_error states k = Some s ->
  answerAt w = Chosen k ->
  exists w',
    selectState name states w = Ok (Some (state_Fn s), None) w' /\
    prompts (trace w') = menuPrompt name states w :: prompts (trace w) /\
    erasures (trace w') = S (erasures (trace w)).
Proof.
  intros Hk Ha. destruct states as [|s0 states]; [destruct k; discriminate|].
  pose proof (selectState_steps name s0 states w) as H. cbv zeta in H.
  rewrite Ha in H. destruct H as [s' [Hs' Hsel]].
  assert (Hlt : k < length (s0 :: states))
    by (apply nth_error_Some; congruence).
  rewrite Nat.min_l in Hs' by lia.
  assert (s' = s) as -> by congruence.
  eexists. split; [exact Hsel|]. split; [reflexivity|].
  rewrite erasures_emit_erase. reflexivity.
Qed.

(** *** Searching, further *)

Lemma HasPrefix_app_l s a b :
  HasPrefix s (a ++ b) = true -> HasPrefix s a = true.
Proof.
  revert s. induction a as [|c a IH]; intros s H.
  - apply HasPrefix_empty.
  - cbn [append] in H. destruct s as [|c' s]; [discriminate|].
    cbn [HasPrefix] in *.
    apply andb_true_iff in H. destruct H as [Hc Hs].
    rewrite Hc, (IH _ Hs). reflexivity.
Qed.

Lemma HasPrefix_Contains s a : HasPrefix s a = true -> Contains s a = true.
Proof. intros H. destruct s; cbn [Contains]; rewrite H; reflexivity. Qed.

Lemma Contains_tail c s a : Contains s a = true -> Contains (String c s) a = true.
Proof. intros H. cbn [Contains]. rewrite H. apply orb_true_r. Qed.

Lemma HasPrefix_app_r s a b :
  HasPrefix s (a ++ b) = true -> Contains s b = true.
Proof.
  revert s. induction a as [|c a IH]; intros s H.
  - apply HasPrefix_Contains, H.
  - cbn [append] in H. destruct s as [|c' s]; [discriminate|].
    cbn [HasPrefix] in H.
    apply andb_true_iff in H. destruct H as [_ Hs].
    apply Contains_tail, IH, Hs.
Qed.

Lemma Contains_app s a b :
  Contains s (a ++ b) = true -> Contains s a = true /\ Contains s b = true.
Proof.
  induction s as [|c s IH]; intros H.
  - cbn [Contains] in H. rewrite orb_false_r in H. split.
    + apply HasPrefix_Contains. eapply HasPrefix_app_l, H.
    + eapply HasPrefix_app_r, H.
  - cbn [Contains] in H. apply orb_true_iff in H. destruct H as [H|H].
    + split.
      * apply HasPrefix_Contains. eapply HasPrefix_app_l, H.
      * eapply HasPrefix_app_r, H.
    + destruct (IH H) as [Ha Hb]. split; apply Contains_tail; assumption.
Qed.

Lemma lowerByte_idempotent c : lowerByte (lowerByte c) = lowerByte c.
Proof. destruct c as [[] [] [] [] [] [] [] []]; reflexivity. Qed.

Lemma lowerByte_isASCII c :
  isASCIIByte c = true -> isASCIIByte (lowerByte c) = true.
Proof. destruct c as [[] [] [] [] [] [] [] []]; intros H; exact H || reflexivity. Qed.

Lemma mapBytes_lower_isASCII s :
  isASCII s = true -> isASCII (mapBytes lowerByte s) = true.
Proof.
  induction s as [|c s IH]; [reflexivity|].
  cbn [isASCII mapBytes]. intros H. apply andb_true_iff in H.
  destruct H as [Hc Hs]. rewrite (lowerByte_isASCII c Hc), (IH Hs).
  reflexivity.
Qed.

Lemma mapBytes_lower_idempotent s :
  mapBytes lowerByte (mapBytes lowerByte s) = mapBytes lowerByte s.
Proof.
  induction s as [|c s IH]; [reflexivity|].
  cbn [mapBytes]. rewrite lowerByte_idempotent, IH. reflexivity.
Qed.

Lemma squash_ToLower s : isASCII s = true -> squash (ToLower s) = squash s.
Proof.
  intros H. unfold squash. unfold ToLower at 2 3. rewrite H.
  unfold ToLower. rewrite (mapBytes_lower_isASCII s H).
  rewrite mapBytes_lower_idempotent. reflexivity.
Qed.

Lemma comparesSquashed_narrows {A : Type} s (l : list A) key :
  comparesSquashed s l key -> narrows s.
Proof.
  intros Hs q1 q2 i H1 H2. rewrite !Hs.
  destruct (nth_error l i) as [x|]; cbn [option_map]; [|discriminate].
  rewrite (squash_app q1 q2 H1 H2). intros H. inversion H as [Hc].
  destruct (Contains_app _ _ _ Hc) as [Ha Hb]. rewrite Hc, Ha, Hb.
  split; reflexivity.
Qed.

Lemma comparesSquashed_ignores {A : Type} s (l : list A) key :
  comparesSquashed s l key -> ignoresCaseAndSpaces s.
Proof.
  intros Hs q i Hq. rewrite !Hs.
  rewrite (squash_ToLower q Hq), (squash_drop_spaces q Hq).
  rewrite (squash_app " " q eq_refl Hq), (squash_app q " " Hq eq_refl).
  change (squash " ") with "". cbn [append].
  replace (squash q ++ "") with (squash q).
  - repeat split.
  - clear. induction (squash q) as [|c s IH]; [reflexivity|].
    cbn [append]. rewrite <- IH. reflexivity.
Qed.

Ltac compares l :=
  intros input index;
  cbv beta delta [selectState_searcher Schemas_searcher
    Tables_searcher Views_searcher TablesBySchema_searcher
    TablesBySizeWithIndex_searcher TablesByRows_searcher
    ColumnsFrequency_searcher selectStr_searcher];
  destruct (nth_error l index); reflexivity.

(** Every searcher of the program looks for the squashed query in a
    squashed key of the item. *)
Lemma searchers_compare_squashed :
  (forall l, comparesSquashed (selectState_searcher l) l
               (fun x => squash (state_Name x))) /\
  (forall l, comparesSquashed (selectStr_searcher l) l squash) /\
  (forall l, comparesSquashed (Schemas_searcher l) l
               (fun x => squash (schema_Name x))) /\
  (forall l, comparesSquashed (Tables_searcher l) l
               (fun x => squash (pgTable_Schema x) ++ "." ++
                         squash (pgTable_Name x))) /\
  (forall l, comparesSquashed (Views_searcher l) l
               (fun x => squash (view_ViewSchema x) ++ "." ++
                         squash (view_Name x))) /\
  (forall l, comparesSquashed (TablesBySchema_searcher l) l
               (fun x => squash (summary_Schema x))) /\
  (forall l, comparesSquashed (TablesBySizeWithIndex_searcher l) l
               (fun x => squash (pgTable_Schema (indexed_pgTable x)) ++ "."
                         ++ squash (pgTable_Name (indexed_pgTable x)))) /\
  (forall l, comparesSquashed (TablesByRows_searcher l) l
               (fun x => squash (pgTable_Schema (rows_pgTable x)) ++ "." ++
                         squash (pgTable_Name (rows_pgTable x)))) /\
  (forall l, comparesSquashed (ColumnsFrequency_searcher l) l
               (fun x => squash (column_Name x))).
Proof. repeat apply conj; intros l; compares l. Qed.

Ltac from_squashed lem :=
  repeat apply conj; intros l;
  [ eapply lem, (proj1 searchers_compare_squashed)
  | eapply lem, (proj1 (proj2 searchers_compare_squashed))
  | eapply lem, (proj1 (proj2 (proj2 searchers_compare_squashed)))
  | eapply lem, (proj1 (proj2 (proj2 (proj2 searchers_compare_squashed))))
  | eapply lem,
      (proj1 (proj2 (proj2 (proj2 (proj2 searchers_compare_squashed)))))
  | eapply lem,
      (proj1 (proj2 (proj2 (proj2 (proj2 (proj2
         searchers_compare_squashed))))))
  | eapply lem,
      (proj1 (proj2 (proj2 (proj2 (proj2 (proj2 (proj2
         searchers_compare_squashed)))))))
  | eapply lem,
      (proj1 (proj2 (proj2 (proj2 (proj2 (proj2 (proj2 (proj2
         searchers_compare_squashed))))))))
  | eapply lem,
      (proj2 (proj2 (proj2 (proj2 (proj2 (proj2 (proj2 (proj2
         searchers_compare_squashed)))))))) ].

(** X9. Typing more only narrows the list: with every searcher of the
    program, an item that an ASCII query finds is found by each of the
    two parts the query splits into, so an item dropped for a query
    stays dropped when the query is extended. *)
Theorem longer_query_only_narrows :
  (forall l, narrows (selectState_searcher l)) /\
  (forall l, narrows (selectStr_searcher l)) /\
  (forall l, narrows (Schemas_searcher l)) /\
  (forall l, narrows (Tables_searcher l)) /\
  (forall l, narrows (Views_searcher l)) /\
  (forall l, narrows (TablesBySchema_searcher l)) /\
  (forall l, narrows (TablesBySizeWithIndex_searcher l)) /\
  (forall l, narrows (TablesByRows_searcher l)) /\
  (forall l, narrows (ColumnsFrequency_searcher l)).
Proof. from_squashed @comparesSquashed_narrows. Qed.

(** X10. With every searcher of the program the answer to an ASCII
    query does not depend on the case of its letters nor on its spaces:
    the lower-cased query, the query without its spaces and the query
    with a space before or after it give the same answer at every
    index. *)
Theorem query_case_and_spaces_do_not_count :
  (forall l, ignoresCaseAndSpaces (selectState_searcher l)) /\
  (forall l, ignoresCaseAndSpaces (selectStr_searcher l)) /\
  (forall l, ignoresCaseAndSpaces (Schemas_searcher l)) /\
  (forall l, ignoresCaseAndSpaces (Tables_searcher l)) /\
  (forall l, ignoresCaseAndSpaces (Views_searcher l)) /\
  (forall l, ignoresCaseAndSpaces (TablesBySchema_searcher l)) /\
  (forall l, ignoresCaseAndSpaces (TablesBySizeWithIndex_searcher l)) /\
  (forall l, ignoresCaseAndSpaces (TablesByRows_searcher l)) /\
  (forall l, ignoresCaseAndSpaces (ColumnsFrequency_searcher l)).
Proof. from_squashed @comparesSquashed_ignores. Qed.

(** *** Connection strings *)

Lemma string_app_assoc (a b c : string) : (a ++ b) ++ c = a ++ b ++ c.
Proof.
  induction a as [|x a IH]; [reflexivity|].
  cbn [append]. rewrite IH. reflexivity.
Qed.

Lemma HasPrefix_app s t : HasPrefix (s ++ t) s = true.
Proof.
  induction s as [|c s IH]; [apply HasPrefix_empty|].
  cbn [append HasPrefix]. rewrite Ascii.eqb_refl, IH. reflexivity.
Qed.

Lemma Contains_in_suffix a b x :
  Contains b x = true -> Contains (a ++ b) x = true.
Proof.
  intros H. induction a as [|c a IH]; [exact H|].
  cbn [append]. apply Contains_tail, IH.
Qed.

Lemma Join_Contains sep l x : In x l -> Contains (Join l sep) x = true.
Proof.
  induction l as [|e l IH]; [contradiction|].
  intros [->|Hin].
  - destruct l as [|e' l]; cbn [Join].
    + apply Contains_refl.
    + apply HasPrefix_Contains, HasPrefix_app.
  - destruct l as [|e' l]; [contradiction|]. cbn [Join].
    apply Contains_in_suffix, Contains_in_suffix, IH, Hin.
Qed.

(** The parts [DBConnection] joins: the pair of every field that is
    set, and nothing for a field that is empty. *)
Lemma DBConnection_parts c :
  exists parts,
    DBConnection c = Join parts " " /\
    (nonEmpty (CFG_Username c) = true ->
     In ("user='" ++ CFG_Username c ++ "'") parts) /\
    (nonEmpty (CFG_Password c) = true ->
     In ("password='" ++ CFG_Password c ++ "'") parts) /\
    (nonEmpty (CFG_DBName c) = true ->
     In ("dbname='" ++ CFG_DBName c ++ "'") parts) /\
    (nonEmpty (CFG_Port c) = true ->
     In ("port='" ++ CFG_Port c ++ "'") parts) /\
    (nonEmpty (CFG_SSLMode c) = true ->
     In ("sslmode=" ++ CFG_SSLMode c) parts).
Proof.
  unfold DBConnection.
  destruct (nonEmpty (CFG_Username c)), (nonEmpty (CFG_Password c)),
    (nonEmpty (CFG_DBName c)), (nonEmpty (CFG_Port c)),
    (nonEmpty (CFG_SSLMode c));
    eexists; (split; [reflexivity|]);
    repeat apply conj; intros H; try discriminate H;
    cbn [app In]; auto 10.
Qed.

(** X11. The connection string is empty exactly when user, password,
    database, port and SSL mode are all empty; the name of the profile
    plays no part in it. *)
Theorem DBConnection_empty_iff c :
  (DBConnection c = "" <->
   CFG_Username c = "" /\ CFG_Password c = "" /\ CFG_DBName c = "" /\
   CFG_Port c = "" /\ CFG_SSLMode c = "")
  /\
  (forall name,
     DBConnection (mkCFG name (CFG_DBName c) (CFG_Password c) (CFG_Port c)
                         (CFG_SSLMode c) (CFG_Username c))
     = DBConnection c).
Proof.
  split; [|reflexivity].
  destruct c as [name d pw po ssl u]. cbn [CFG_Username CFG_Password
    CFG_DBName CFG_Port CFG_SSLMode].
  destruct u, pw, d, po, ssl; split; intros H;
    try (repeat split; reflexivity);
    try (vm_compute in H; discriminate H);
    try (destruct H as (H1 & H2 & H3 & H4 & H5); discriminate).
Qed.

(** X12. Every field that is set shows up in the connection string as
    its pair, the value as it is between single quotes (the SSL mode
    bare); with all five set the string is the five pairs in the order
    user, password, dbname, port, sslmode with one space between. *)
Theorem DBConnection_has_every_set_field c :
  (nonEmpty (CFG_Username c) = true ->
   Contains (DBConnection c) ("user='" ++ CFG_Username c ++ "'") = true) /\
  (nonEmpty (CFG_Password c) = true ->
   Contains (DBConnection c) ("password='" ++ CFG_Password c ++ "'")
   = true) /\
  (nonEmpty (CFG_DBName c) = true ->
   Contains (DBConnection c) ("dbname='" ++ CFG_DBName c ++ "'") = true) /\
  (nonEmpty (CFG_Port c) = true ->
   Contains (DBConnection c) ("port='" ++ CFG_Port c ++ "'") = true) /\
  (nonEmpty (CFG_SSLMode c) = true ->
   Contains (DBConnection c) ("sslmode=" ++ CFG_SSLMode c) = true) /\
  (nonEmpty (CFG_Username c) = true -> nonEmpty (CFG_Password c) = true ->
   nonEmpty (CFG_DBName c) = true -> nonEmpty (CFG_Port c) = true ->
   nonEmpty (CFG_SSLMode c) = true ->
   DBConnection c
   = "user='" ++ CFG_Username c ++ "' password='" ++ CFG_Password c ++
     "' dbname='" ++ CFG_DBName c ++ "' port='" ++ CFG_Port c ++
     "' sslmode=" ++ CFG_SSLMode c).
Proof.
  assert (Hall : nonEmpty (CFG_Username c) = true ->
     nonEmpty (CFG_Password c) = true ->
     nonEmpty (CFG_DBName c) = true -> nonEmpty (CFG_Port c) = true ->
     nonEmpty (CFG_SSLMode c) = true ->
     DBConnection c
     = "user='" ++ CFG_Username c ++ "' password='" ++ CFG_Password c ++
       "' dbname='" ++ CFG_DBName c ++ "' port='" ++ CFG_Port c ++
       "' sslmode=" ++ CFG_SSLMode c).
  { intros H1 H2 H3 H4 H5. unfold DBConnection.
    rewrite H1, H2, H3, H4, H5. cbn [app Join].
    repeat rewrite string_app_assoc. cbn [append]. reflexivity. }
  destruct (DBConnection_parts c) as (parts & Hj & Hu & Hpw & Hd & Hpo & Hs).
  repeat apply conj; try exact Hall;
    intros H; rewrite Hj; apply Join_Contains; auto.
Qed.

(** *** The rest of the runner *)

(** X13. [DescribeTable] checks the name before it touches the
    database: for the empty name it returns its own error and makes no
    call at all; for any other name it makes exactly one query, under
    the caller's context, hands on the error of that query, and shows
    nothing, not even when the query succeeds. *)
Theorem DescribeTable_checks_the_name_first r ctx w :
  DescribeTable r ctx "" w = Ok (Some (errors_New "no table provided")) w
  /\
  (forall table,
     table <> "" ->
     exists q,
       DescribeTable r ctx table w
       = Ok (option_map passedOn (queryError (database (env w) (clock w))))
            (emit (EvQuery ctx q (database (env w) (clock w))) w)).
Proof.
  split; [reflexivity|].
  intros table Hne. unfold DescribeTable.
  destruct (String.eqb_spec table "") as [->|_]; [contradiction|].
  eexists. unfold bind, SelectContext.
  destruct (database (env w) (clock w)); reflexivity.
Qed.

(** X14. [selectStr] opens one prompt of size 1, whatever the size of
    the terminal, since it has no templates; the prompt lists the items
    as they are and starts in search mode; [selectStr] hands on the
    error of the prompt and erases nothing itself. *)
Theorem selectStr_prompts_with_size_one label items w :
  exists result w',
    selectStr label items w = Ok (result, selectError (answerAt w)) w' /\
    (exists sel,
       prompts (trace w') = sel :: prompts (trace w) /\
       sel_Size sel = 1%Z /\
       sel_Items sel = map ItemString items /\
       sel_StartInSearchMode sel = true /\
       sel_Searcher sel = Some (selectStr_searcher items)) /\
    erasures (trace w') = erasures (trace w).
Proof.
  unfold selectStr, bind. rewrite selectSize_spec.
  unfold Select_Run. cbn [env clock tick]. fold (answerAt w).
  eexists _, _. split; [reflexivity|]. split.
  - eexists. split; [reflexivity|]. split; [|repeat split].
    cbn [sel_Size]. destruct (tty (env w) (clock w)); reflexivity.
  - reflexivity.
Qed.

Lemma CountByte_nonneg s c : (0 <= CountByte s c)%Z.
Proof.
  induction s as [|x s IH]; cbn [CountByte]; [lia|].
  destruct (Ascii.eqb x c); lia.
Qed.

(** X15. The number [selectSize] returns is bounded by the rows of the
    terminal: for a terminal of [row] rows it is at most [row - 4], or
    at most 1 when that is less; and from five rows on a template whose
    details have no newline gets exactly [row - 4].  This is about the
    number handed to promptui as [Size], not about the rows promptui
    then draws. *)
Theorem selectSize_at_most_rows_less_four templates w col row :
  tty (env w) (clock w) = Winsize col row ->
  (0 <= row < 2 ^ 16)%Z ->
  (forall t, templates = Some t ->
             (CountByte (Details t) newline < 2 ^ 62)%Z) ->
  exists size,
    selectSize templates w = Ok size (tick w) /\
    (size <= Z.max 1 (row - 4))%Z /\
    (forall t, templates = Some t -> 5 <= row ->
               CountByte (Details t) newline = 0 ->
               size = row - 4)%Z.
Proof.
  intros Htty Hrow Hcount. rewrite selectSize_spec, Htty.
  eexists. split; [reflexivity|].
  destruct templates as [t|]; cbn [viewport].
  - pose proof (CountByte_nonneg (Details t) newline) as H0.
    pose proof (Hcount t eq_refl) as H1.
    destruct (row <? 4)%Z eqn:E.
    + apply Z.ltb_lt in E. split; [lia|]. intros t' _ H5. lia.
    + apply Z.ltb_ge in E. rewrite wrapInt_small by lia.
      split; [lia|]. intros t' Ht' _ Hz. inversion Ht'; subst. lia.
  - split; [lia|]. intros t' Ht'. discriminate.
Qed.

(* ================================================================= *)
(** ** The navigator, at the level of [Run] *)

(** A transition of the tree only adds to the trace. *)
Lemma transition_extends_trace f ctx r w :
  inTree f ->
  exists new, trace (worldOf (call f ctx r w)) = (new ++ trace w)%list.
Proof.
  intros Hf.
  destruct (tree_steps f Hf ctx r w) as [| | |ctx' err w' Hp];
    cbn [worldOf emit tick trace].
  - exists []. reflexivity.
  - eexists [_; _]. reflexivity.
  - eexists [_]. reflexivity.
  - inversion Hp as [q res e Hdb Herr
                    |q res name items srch tmpl w1 Hdb Hq Hs]; subst;
      try subst w1; cbn [worldOf emit tick trace].
    + eexists [_]. reflexivity.
    + eexists [_; _; _]. reflexivity.
Qed.

(** The trace [Run]'s loop ends with extends the one it started with. *)
Lemma loop_extends_trace ctx r fuel f err0 w res :
  inTree f ->
  loop fuel ctx r (Some f) err0 w = Some res ->
  exists later, trace (worldOf res) = (later ++ trace w)%list.
Proof.
  intros Hf Hrun.
  destruct (loop_returns ctx r fuel f err0 w res Hf Hrun)
    as (k & fk & wk & e & w' & _ & Hit & Hfk & Hc & ->).
  destruct (iteration_invariant
              (fun w0 => exists l, trace w0 = (l ++ trace w)%list) ctx r)
    with (k := k) (f := f) (w := w) (fk := fk) (wk := wk)
    as [[l Hl] _]; try assumption.
  - intros f0 w0 f' w0' Hf0 [l Hl] Hs.
    rewrite (step_worldOf _ _ _ _ _ _ Hs).
    destruct (transition_extends_trace f0 ctx r w0 Hf0) as [new Hnew].
    exists (new ++ l)%list. rewrite Hnew, Hl. apply app_assoc.
  - exists []. reflexivity.
  - destruct (transition_extends_trace fk ctx r wk Hfk) as [new Hnew].
    rewrite Hc in Hnew. cbn [worldOf] in *.
    exists (new ++ l)%list. rewrite Hnew, Hl. apply app_assoc.
Qed.

(** A run that ends also ends when started from the state and world
    of any iteration it passes through. *)
Lemma loop_from_iteration ctx r k :
  forall fuel f err0 w fk wk res,
    iterationFrom k ctx r f w = Some (fk, wk) ->
    loop fuel ctx r (Some f) err0 w = Some res ->
    exists fuel' err', loop fuel' ctx r (Some fk) err' wk = Some res.
Proof.
  induction k as [|k IH]; intros fuel f err0 w fk wk res Hit Hrun.
  - inversion Hit; subst. eauto.
  - cbn [iterationFrom] in Hit. unfold step in Hit.
    destruct fuel as [|fuel]; [discriminate|]. cbn [loop] in Hrun.
    destruct (call f ctx r w) as [[nxt err] w1|msg w1]; [|discriminate].
    destruct (if isNil nxt && isNil err then Some (state_Fn startState)
              else nxt) as [f1|]; [|discriminate].
    eapply IH; eassumption.
Qed.

(** After a transition that returned (nil, nil) in world [w'], the next
    thing the loop does is open the root menu in [w']. *)
Lemma root_prompt_follows ctx r f w w' fuel err0 res :
  call f ctx r w = Ok (None, None) w' ->
  loop fuel ctx r (Some f) err0 w = Some res ->
  exists later,
    trace (worldOf res)
    = (later ++ EvSelect (rootPrompt w') (answerAt w') :: trace w')%list.
Proof.
  intros Hcall Hrun.
  destruct fuel as [|fuel]; [discriminate|]. cbn [loop] in Hrun.
  rewrite Hcall in Hrun. cbn [isNil andb] in Hrun.
  destruct fuel as [|fuel]; [discriminate|]. cbn [loop] in Hrun.
  change (call (state_Fn startState) ctx r w')
    with (selectState "Options" [exploreState; playgroundState] w') in Hrun.
  pose proof (selectState_steps "Options" exploreState [playgroundState] w')
    as H.
  cbv zeta in H. unfold rootPrompt, startStates.
  destruct (answerAt w') as [k| | |msg] eqn:Ea.
  - destruct H as [s' [Hs' Hsel]]. rewrite Hsel in Hrun.
    cbn [isNil andb] in Hrun.
    assert (Hin : inTree (state_Fn s')).
    { apply (menu_members_inTree startStates); [|eapply nth_error_In, Hs'].
      intros x Hx. unfold menuStates, actionStates, statStates,
        startStates in *. cbn [app In] in *. intuition auto 25. }
    destruct (loop_extends_trace ctx r fuel _ _ _ _ Hin Hrun) as [later Hl].
    exists (later ++ [EvPrint eraseSequence])%list.
    rewrite Hl. cbn [emit tick trace]. rewrite <- app_assoc. reflexivity.
  - rewrite H in Hrun. cbn [selectError isNil andb] in Hrun.
    rewrite loop_nil in Hrun. inversion Hrun. exists []. reflexivity.
  - rewrite H in Hrun. cbn [selectError isNil andb] in Hrun.
    rewrite loop_nil in Hrun. inversion Hrun. exists []. reflexivity.
  - rewrite H in Hrun. cbn [selectError isNil andb] in Hrun.
    rewrite loop_nil in Hrun. inversion Hrun. exists []. reflexivity.
Qed.

(** C2. Every action of the tree returns a nil next state, and the
    navigator answers (nil, nil) by presenting the root menu.  When the
    user leaves at the prompt that follows, the loop of [Run] returns
    with the root menu "Options", entries Explore and PlayGround, shown
    in the world the action left; after (nil, nil) the loop goes on as
    a [Run] started afresh in that world; and however the session goes
    on, in the trace a run ends with, the event right after a
    transition that returned (nil, nil) is the prompt of the root
    menu. *)
Theorem action_success_bounces_to_root :
  (forall s, In s actionStates ->
     forall ctx r w, exists err w',
       call (state_Fn s) ctx r w = Ok (None, err) w')
  /\
  (forall f ctx r w w' e fuel err0,
     call f ctx r w = Ok (None, None) w' ->
     selectError (answerAt w') = Some e ->
     loop (S (S fuel)) ctx r (Some f) err0 w
     = Some (Ok (Some e)
                (emit (EvSelect (rootPrompt w') (answerAt w')) (tick w'))))
  /\
  (forall f ctx r w w' fuel err0 debug,
     call f ctx r w = Ok (None, None) w' ->
     loop (S fuel) ctx r (Some f) err0 w = Run fuel r ctx debug w')
  /\
  (forall f ctx r w w' fuel err0 res,
     call f ctx r w = Ok (None, None) w' ->
     loop fuel ctx r (Some f) err0 w = Some res ->
     exists later,
       trace (worldOf res)
       = (later ++ EvSelect (rootPrompt w') (answerAt w') :: trace w')%list)
  /\
  (forall fuel r ctx debug w k w' res,
     transition k ctx r w = Some (Ok (None, None) w') ->
     Run fuel r ctx debug w = Some res ->
     exists later,
       trace (worldOf res)
       = (later ++ EvSelect (rootPrompt w') (answerAt w') :: trace w')%list)
  /\
  (forall w',
     sel_Label (rootPrompt w') = "Options" /\
     sel_Items (rootPrompt w') = [ItemState "Explore"; ItemState "PlayGround"]).
Proof.
  split; [|split; [|split; [|split; [|split]]]].
  - unfold actionStates, statStates. cbn [app In].
    intros s H ctx r w.
    repeat (destruct H as [<-|H]); try contradiction; cbn [state_Fn];
      apply action_returns_nil; auto with providers.
  - intros f ctx r w w' e fuel err0 Hcall He.
    cbn [loop]. rewrite Hcall. cbn [isNil andb].
    change (call (state_Fn startState) ctx r w')
      with (selectState "Options" [exploreState; playgroundState] w').
    pose proof (selectState_steps "Options" exploreState [playgroundState] w')
      as H.
    cbv zeta in H. unfold rootPrompt, startStates.
    destruct (answerAt w') as [k| | |msg]; cbn [selectError] in He;
      [discriminate| | |]; rewrite H; cbn [selectError isNil andb] in *;
      inversion He; apply loop_nil.
  - intros f ctx r w w' fuel err0 debug Hcall.
    cbn [loop]. rewrite Hcall. reflexivity.
  - intros f ctx r w w' fuel err0 res. apply root_prompt_follows.
  - intros fuel r ctx debug w k w' res Htr Hrun.
    unfold transition, iteration in Htr.
    destruct (iterationFrom k ctx r (state_Fn startState) w)
      as [[fk wk]|] eqn:Hit; [|discriminate].
    inversion Htr as [Hcall]. unfold Run in Hrun.
    destruct (loop_from_iteration ctx r k _ _ _ _ _ _ _ Hit Hrun)
      as (fuel' & err' & Hrun').
    eapply root_prompt_follows; eassumption.
  - intros w'. split; reflexivity.
Qed.

(* ================================================================= *)
(** ** Cancelling *)

(** C9. Cancelling a prompt has an error value of its own, and it
    reaches the caller.  Of all answers to a prompt only Ctrl-C gives
    [promptui.ErrInterrupt], and no failed query gives it; [selecter]
    returns exactly the error of its prompt, so [promptui.ErrInterrupt]
    when the user pressed Ctrl-C; [selectState] returns it with no next
    state; [Run] returns it when the prompt of the root menu, or the
    prompt of whichever iteration it has reached, was interrupted; and
    [Run] returns it in no other case. *)
Theorem cancel_is_distinguishable :
  (forall a, selectError a = Some promptui_ErrInterrupt <-> a = Interrupted)
  /\
  (forall q, queryError q <> Some promptui_ErrInterrupt)
  /\
  (forall name items searcher templates w,
     exists w',
       selecter name items searcher templates w
       = Ok (selectError (answerAt w)) w' /\
       (answerAt w = Interrupted ->
        selecter name items searcher templates w
        = Ok (Some promptui_ErrInterrupt) w'))
  /\
  (forall name s states w,
     answerAt w = Interrupted ->
     exists w',
       selectState name (s :: states) w
       = Ok (None, Some promptui_ErrInterrupt) w')
  /\
  (forall fuel r ctx debug w,
     answerAt w = Interrupted ->
     exists w',
       Run (S fuel) r ctx debug w
       = Some (Ok (Some promptui_ErrInterrupt) w'))
  /\
  (forall fuel r ctx debug w k f wk nxt err w' sel,
     iteration k ctx r w = Some (f, wk) ->
     call f ctx r wk = Ok (nxt, err) w' ->
     length (trace wk) < length (trace w') ->
     lastCall (trace w') = Some (EvSelect sel Interrupted) ->
     k < fuel ->
     Run fuel r ctx debug w = Some (Ok (Some promptui_ErrInterrupt) w'))
  /\
  (forall fuel r ctx debug w e w',
     Run fuel r ctx debug w = Some (Ok (Some e) w') ->
     e = promptui_ErrInterrupt <->
     exists sel, lastCall (trace w') = Some (EvSelect sel Interrupted)).
Proof.
  split; [exact selectError_interrupt|].
  split; [intros q H; apply queryError_not_interrupt in H; congruence|].
  split; [|split; [|split; [|split]]].
  - intros name items searcher templates w. rewrite selecter_spec.
    eexists. split; [reflexivity|]. intros ->. reflexivity.
  - intros name s states w Ha.
    pose proof (selectState_steps name s states w) as H. cbv zeta in H.
    rewrite Ha in H. eexists. exact H.
  - intros fuel r ctx debug w Ha. unfold Run. cbn [loop].
    change (call (state_Fn startState) ctx r w)
      with (selectState "Options" [exploreState; playgroundState] w).
    pose proof (selectState_steps "Options" exploreState [playgroundState] w)
      as H.
    cbv zeta in H. rewrite Ha in H. rewrite H.
    cbn [selectError isNil andb]. eexists. apply loop_nil.
  - intros fuel r ctx debug w k f wk nxt err w' sel Hit Hcall Hnew Hlast Hk.
    unfold iteration in Hit.
    assert (Hf : inTree f).
    { apply (iteration_invariant (fun _ => True) ctx r
               (fun _ _ _ _ _ _ _ => I) k (state_Fn startState) w f wk);
        auto using startState_inTree. }
    assert (Herr : err = Some promptui_ErrInterrupt).
    { pose proof (tree_steps f Hf ctx r wk) as H. rewrite Hcall in H.
      inversion H as [| name s states k' s' Ha Hn Hin
                      | name s states e Ha
                      | ctx' err' w2 Hp]; subst.
      - lia.
      - cbn [emit tick trace lastCall] in Hlast. discriminate.
      - cbn [emit tick trace lastCall] in Hlast.
        inversion Hlast as [[Hsel Hans]]. rewrite Hans in Ha.
        cbn [selectError] in Ha. congruence.
      - inversion Hp as [q res e Hdb He
                        |q res name items srch tmpl w3 Hdb Hq Hs Hres];
          subst.
        + cbn [emit trace lastCall] in Hlast. discriminate.
        + cbn [emit tick trace lastCall] in Hlast.
          inversion Hlast as [[Hsel Hans]]. rewrite Hans.
          reflexivity. }
    subst err. unfold Run.
    eapply loop_stops; eauto using startState_inTree.
  - intros fuel r ctx debug w e w' Hrun. unfold Run in Hrun.
    destruct (loop_returns ctx r fuel _ None w _ startState_inTree Hrun)
      as (k & fk & wk & e1 & w1 & _ & _ & Hfk & Hcall & Hres).
    inversion Hres; subst.
    eapply failed_transition_cause; eassumption.
Qed.

(* ================================================================= *)
(** ** Searching in strings that are not ASCII *)

Lemma byteOf_space : byteOf space = 32%Z.
Proof. reflexivity. Qed.

(** The second byte of a sequence is from 0x80 on. *)
Lemma first_accepts b sz lo hi :
  first b = Some (sz, lo, hi) -> (128 <= lo)%Z.
Proof.
  unfold first, locb.
  repeat match goal with
         | |- context [if ?c then _ else _] => destruct c
         end; intros H; inversion H; lia.
Qed.

Lemma continues_not_space lo hi c :
  (128 <= lo)%Z -> continues lo hi c = true -> Ascii.eqb c space = false.
Proof.
  intros Hlo H. unfold continues in H. apply andb_true_iff in H.
  destruct H as [H _]. apply Z.leb_le in H.
  apply Ascii.eqb_neq. intros ->. rewrite byteOf_space in H. lia.
Qed.

(** What [DecodeRuneInString] returns with width 1 is the byte itself,
    if it is ASCII, or [RuneError]. *)
Lemma DecodeRune_width_one c s r :
  DecodeRuneInString (String c s) = (r, 1%nat) ->
  (r = byteOf c /\ (byteOf c < 128)%Z) \/ r = RuneError.
Proof.
  unfold DecodeRuneInString. intros H.
  destruct (byteOf c <? 128)%Z eqn:E.
  { inversion H. left. split; [reflexivity|]. apply Z.ltb_lt, E. }
  repeat match type of H with
         | context [if ?c then _ else _] => destruct c
         | context [match ?s with EmptyString => _ | String _ _ => _ end] =>
             destruct s
         | context [match first ?b with _ => _ end] =>
             destruct (first b) as [[[? ?] ?]|]
         end; inversion H; auto.
Qed.

Lemma DecodeRune_ascii c s :
  isASCIIByte c = true ->
  DecodeRuneInString (String c s) = (byteOf c, 1%nat).
Proof.
  unfold isASCIIByte, DecodeRuneInString, byteOf. intros H.
  apply Nat.ltb_lt in H.
  destruct (Z.of_nat (nat_of_ascii c) <? 128)%Z eqn:E; [reflexivity|].
  apply Z.ltb_ge in E. lia.
Qed.

(** A rune that was decoded is decoded again when the spaces after its
    first byte are dropped: its other bytes are no spaces. *)
Lemma DecodeRune_drop_spaces c s rw :
  DecodeRuneInString (String c s) = rw ->
  isInvalidByte rw = false ->
  DecodeRuneInString (String c (ReplaceByte s space "")) = rw /\
  spaceFree (snd rw - 1) s = true.
Proof.
  unfold DecodeRuneInString. intros H Hv.
  destruct (byteOf c <? 128)%Z; [subst rw; split; reflexivity|].
  destruct (first (byteOf c)) as [[[sz lo] hi]|] eqn:Ef;
    [|subst rw; discriminate].
  pose proof (first_accepts _ _ _ _ Ef) as Hlo.
  destruct s as [|c1 s2]; [subst rw; discriminate|].
  destruct (continues lo hi c1) eqn:E1; cbn [negb] in H;
    [|subst rw; discriminate].
  pose proof (continues_not_space _ _ _ Hlo E1) as N1.
  cbn [ReplaceByte]. rewrite N1, E1. cbn [negb].
  destruct (sz <=? 2)%nat;
    [subst rw; cbn [snd Nat.sub spaceFree]; rewrite N1; split; reflexivity|].
  destruct s2 as [|c2 s3]; [subst rw; discriminate|].
  destruct (continues locb hicb c2) eqn:E2; cbn [negb] in H;
    [|subst rw; discriminate].
  pose proof (continues_not_space locb hicb c2 ltac:(unfold locb; lia) E2)
    as N2.
  cbn [ReplaceByte]. rewrite N2, E2. cbn [negb].
  destruct (sz <=? 3)%nat;
    [subst rw; cbn [snd Nat.sub spaceFree]; rewrite N1, N2;
     split; reflexivity|].
  destruct s3 as [|c3 s4]; [subst rw; discriminate|].
  destruct (continues locb hicb c3) eqn:E3; cbn [negb] in H;
    [|subst rw; discriminate].
  pose proof (continues_not_space locb hicb c3 ltac:(unfold locb; lia) E3)
    as N3.
  cbn [ReplaceByte]. rewrite N3, E3. cbn [negb].
  subst rw; cbn [snd Nat.sub spaceFree]; rewrite N1, N2, N3.
  split; reflexivity.
Qed.

(** A rune that was decoded is decoded again when the string goes on,
    and all its bytes were there. *)
Lemma DecodeRune_app c s t rw :
  DecodeRuneInString (String c s) = rw ->
  isInvalidByte rw = false ->
  DecodeRuneInString (String c (s ++ t)) = rw /\
  snd rw - 1 <= String.length s.
Proof.
  unfold DecodeRuneInString. intros H Hv.
  destruct (byteOf c <? 128)%Z; [subst rw; split; [reflexivity|cbn; lia]|].
  destruct (first (byteOf c)) as [[[sz lo] hi]|] eqn:Ef;
    [|subst rw; discriminate].
  destruct s as [|c1 s2]; [subst rw; discriminate|].
  cbn [append].
  destruct (continues lo hi c1) eqn:E1; cbn [negb] in *;
    [|subst rw; discriminate].
  destruct (sz <=? 2)%nat;
    [subst rw; split; [reflexivity|cbn; lia]|].
  destruct s2 as [|c2 s3]; [subst rw; discriminate|].
  cbn [append].
  destruct (continues locb hicb c2) eqn:E2; cbn [negb] in *;
    [|subst rw; discriminate].
  destruct (sz <=? 3)%nat;
    [subst rw; split; [reflexivity|cbn; lia]|].
  destruct s3 as [|c3 s4]; [subst rw; discriminate|].
  cbn [append].
  destruct (continues locb hicb c3) eqn:E3; cbn [negb] in *;
    [|subst rw; discriminate].
  subst rw; split; [reflexivity|cbn; lia].
Qed.

(** Ranging over a valid string without its spaces gives its runes
    without the spaces. *)
Lemma rangeString_drop_spaces s :
  forall skip,
    validRunes (rangeString skip s) = true ->
    spaceFree skip s = true ->
    rangeString skip (ReplaceByte s space "")
    = filter (fun rw => negb (isSpaceRune rw)) (rangeString skip s).
Proof.
  induction s as [|c s IH]; intros skip Hv Hs; [reflexivity|].
  destruct skip as [|k].
  - cbn [rangeString] in *. cbn [validRunes forallb] in Hv.
    apply andb_true_iff in Hv. destruct Hv as [Hrw Hv].
    apply negb_true_iff in Hrw.
    destruct (DecodeRune_drop_spaces c s _ eq_refl Hrw) as [Hd Hfree].
    cbn [ReplaceByte filter].
    destruct (Ascii.eqb c space) eqn:Ec.
    + apply Ascii.eqb_eq in Ec. subst c. cbn [append].
      change (DecodeRuneInString (String space s)) with (32%Z, 1%nat) in *.
      cbn [isSpaceRune fst snd Z.eqb Pos.eqb Nat.eqb andb negb Nat.sub] in *.
      apply IH; [assumption|reflexivity].
    + assert (Hns : isSpaceRune (DecodeRuneInString (String c s)) = false).
      { destruct (DecodeRuneInString (String c s)) as [r w] eqn:Ed.
        unfold isSpaceRune. cbn [fst snd].
        destruct (r =? 32)%Z eqn:Er; [|reflexivity].
        destruct (w =? 1)%nat eqn:Ew; [|reflexivity].
        apply Z.eqb_eq in Er. apply Nat.eqb_eq in Ew. subst r w.
        apply DecodeRune_width_one in Ed.
        destruct Ed as [[Hb _]|Hb]; [|discriminate].
        apply Ascii.eqb_neq in Ec. exfalso. apply Ec.
        unfold byteOf in Hb.
        assert (Hn : nat_of_ascii c = 32%nat) by lia.
        rewrite <- (ascii_nat_embedding c), Hn. reflexivity. }
      rewrite Hns. cbn [negb rangeString]. rewrite Hd. f_equal.
      apply IH; assumption.
  - cbn [rangeString spaceFree] in *.
    apply andb_true_iff in Hs. destruct Hs as [Hc Hs].
    apply negb_true_iff in Hc. cbn [ReplaceByte]. rewrite Hc.
    cbn [rangeString]. apply IH; assumption.
Qed.

(** Ranging over a valid string followed by another. *)
Lemma rangeString_app a b :
  forall skip,
    validRunes (rangeString skip a) = true ->
    skip <= String.length a ->
    rangeString skip (a ++ b) = (rangeString skip a ++ rangeString 0 b)%list.
Proof.
  induction a as [|c a IH]; intros skip Hv Hk.
  - cbn [String.length] in Hk. assert (skip = 0)%nat by lia. subst skip.
    reflexivity.
  - destruct skip as [|k]; cbn [append rangeString] in *.
    + cbn [validRunes forallb] in Hv.
      apply andb_true_iff in Hv. destruct Hv as [Hrw Hv].
      apply negb_true_iff in Hrw.
      destruct (DecodeRune_app c a b _ eq_refl Hrw) as [Hd Hlen].
      rewrite Hd. cbn [app]. f_equal. apply IH; assumption.
    + apply IH; [assumption|cbn [String.length] in Hk; lia].
Qed.

Lemma ValidString_app a b :
  ValidString a = true -> ValidString b = true ->
  ValidString (a ++ b) = true.
Proof.
  unfold ValidString. intros Ha Hb.
  rewrite (rangeString_app a b 0 Ha (Nat.le_0_l _)).
  unfold validRunes in *. rewrite forallb_app, Ha. exact Hb.
Qed.

Lemma ValidString_ascii s : isASCII s = true -> ValidString s = true.
Proof.
  unfold ValidString, validRunes.
  induction s as [|c s IH]; [reflexivity|].
  cbn [isASCII rangeString]. intros H. apply andb_true_iff in H.
  destruct H as [Hc Hs]. rewrite (DecodeRune_ascii c s Hc).
  cbn [forallb snd Nat.sub]. rewrite (IH Hs), andb_true_r.
  unfold isInvalidByte. cbn [fst snd Nat.eqb]. rewrite andb_true_r.
  apply negb_true_iff. apply Z.eqb_neq. unfold RuneError, byteOf.
  unfold isASCIIByte in Hc. apply Nat.ltb_lt in Hc. lia.
Qed.

Lemma Map_app mapping a b :
  ValidString a = true ->
  Map mapping (a ++ b) = Map mapping a ++ Map mapping b.
Proof.
  unfold ValidString, Map. intros Ha.
  rewrite (rangeString_app a b 0 Ha (Nat.le_0_l _)), fold_right_app.
  clear Ha. induction (rangeString 0 a) as [|rw l IH]; [reflexivity|].
  cbn [fold_right]. rewrite IH. symmetry. apply string_app_assoc.
Qed.

(** On ASCII, [Map(unicode.ToLower, s)] is the byte-wise lowering. *)
Lemma lowerByte_rune caseTables c :
  isASCIIByte c = true ->
  AppendRune (unicode_ToLower caseTables (byteOf c))
  = String (lowerByte c) "" /\
  (unicode_ToLower caseTables (byteOf c) <? 0)%Z = false.
Proof.
  destruct c as [[] [] [] [] [] [] [] []]; intros H;
    try discriminate H; split; reflexivity.
Qed.

Lemma Map_ascii caseTables s :
  isASCII s = true ->
  Map (unicode_ToLower caseTables) s = mapBytes lowerByte s.
Proof.
  unfold Map. induction s as [|c s IH]; [reflexivity|].
  cbn [isASCII rangeString mapBytes]. intros H. apply andb_true_iff in H.
  destruct H as [Hc Hs]. rewrite (DecodeRune_ascii c s Hc).
  cbn [fold_right fst snd Nat.sub].
  destruct (lowerByte_rune caseTables c Hc) as [-> ->].
  rewrite (IH Hs). reflexivity.
Qed.

(** Dropping the spaces of what [Map] wrote, from the runes. *)
Lemma Map_drop_spaces caseTables s :
  ValidString s = true ->
  ReplaceByte (Map (unicode_ToLower caseTables) (ReplaceByte s space ""))
              space ""
  = ReplaceByte (Map (unicode_ToLower caseTables) s) space "".
Proof.
  unfold ValidString, Map. intros Hv.
  rewrite (rangeString_drop_spaces s 0 Hv eq_refl). clear Hv.
  induction (rangeString 0 s) as [|rw l IH]; [reflexivity|].
  cbn [filter fold_right].
  destruct (isSpaceRune rw) eqn:Es; cbn [negb].
  - unfold isSpaceRune in Es. apply andb_true_iff in Es.
    destruct Es as [Er _]. apply Z.eqb_eq in Er. rewrite Er.
    change (unicode_ToLower caseTables 32) with 32%Z.
    change (AppendRune 32) with " ". cbn [Z.ltb Z.compare append ReplaceByte].
    change (Ascii.eqb " " space) with true. cbn iota. cbn [append].
    apply IH.
  - cbn [fold_right]. rewrite !ReplaceByte_app, IH. reflexivity.
Qed.

(** With [Map(unicode.ToLower, s)] for the strings that are not ASCII,
    [strings.ToLower] is [Map(unicode.ToLower, s)] on all strings. *)
Lemma ToLower_Map caseTables s :
  (forall s, unicodeLower s = Map (unicode_ToLower caseTables) s) ->
  ToLower s = Map (unicode_ToLower caseTables) s.
Proof.
  intros Hmap. unfold ToLower. destruct (isASCII s) eqn:E.
  - symmetry. apply Map_ascii, E.
  - apply Hmap.
Qed.

Lemma squash_drop_spaces_valid caseTables s :
  (forall s, unicodeLower s = Map (unicode_ToLower caseTables) s) ->
  ValidString s = true -> squash (ReplaceByte s space "") = squash s.
Proof.
  intros Hmap H. unfold squash. rewrite !(ToLower_Map caseTables) by exact Hmap.
  apply Map_drop_spaces, H.
Qed.

Lemma squash_app_valid caseTables a b :
  (forall s, unicodeLower s = Map (unicode_ToLower caseTables) s) ->
  ValidString a = true -> squash (a ++ b) = squash a ++ squash b.
Proof.
  intros Hmap H. unfold squash. rewrite !(ToLower_Map caseTables) by exact Hmap.
  rewrite (Map_app _ a b H). apply ReplaceByte_app.
Qed.
(** C8, as the code has it.  Every searcher lower-cases the query and
    the search key of the item and drops their spaces (the byte 0x20,
    no other white space) before the containment test.  The search key
    is the name of a menu entry, of a schema or of a column, the text
    of a plain entry, the schema of a schema summary, and schema, dot
    and name of a table or a view; it is not the line the item is shown
    as.  With [strings.ToLower] ending in [Map(unicode.ToLower, s)], an
    item whose key is valid UTF-8 is found by the key without its
    spaces, and a query of valid UTF-8 finds the same with and without
    its spaces; "Table Count Per Schema" is found by "tablecount" and
    by "TABLE COUNT PER SCHEMA". *)
Theorem searcher_ignores_case_and_spaces (caseTables : Z -> Z) :
  (forall s, unicodeLower s = Map (unicode_ToLower caseTables) s) ->
  searchesField selectState_searcher state_Name /\
  searchesField selectStr_searcher (fun item => item) /\
  searchesField Schemas_searcher schema_Name /\
  searchesQualifiedName Tables_searcher pgTable_Schema pgTable_Name /\
  searchesQualifiedName Views_searcher view_ViewSchema view_Name /\
  searchesField TablesBySchema_searcher summary_Schema /\
  searchesQualifiedName TablesBySizeWithIndex_searcher
    (fun t => pgTable_Schema (indexed_pgTable t))
    (fun t => pgTable_Name (indexed_pgTable t)) /\
  searchesQualifiedName TablesByRows_searcher
    (fun t => pgTable_Schema (rows_pgTable t))
    (fun t => pgTable_Name (rows_pgTable t)) /\
  searchesField ColumnsFrequency_searcher column_Name /\
  selectState_searcher statStates "tablecount" 0 = Some true /\
  selectState_searcher statStates "TABLE COUNT PER SCHEMA" 0 = Some true.
Proof.
  intros Hmap.
  assert (Hq : forall A (searcher : list A -> Searcher) schema name,
    (forall l input index,
       searcher l input index
       = option_map
           (fun x => Contains (squash (schema x) ++ "." ++ squash (name x))
                              (squash input))
           (nth_error l index)) ->
    searchesQualifiedName searcher schema name).
  { intros A searcher schema name Hs l index x Hx.
    split; [|split].
    - intros input. rewrite Hs, Hx. reflexivity.
    - intros Hsch Hname. rewrite Hs, Hx. cbn [option_map].
      assert (Hdot : ValidString ("." ++ name x) = true)
        by (apply (ValidString_app "." (name x) eq_refl Hname)).
      rewrite (squash_drop_spaces_valid caseTables _ Hmap
                 (ValidString_app _ _ Hsch Hdot)).
      rewrite (squash_app_valid caseTables _ _ Hmap Hsch).
      rewrite (squash_app_valid caseTables "." _ Hmap eq_refl).
      change (squash ".") with ".". rewrite Contains_refl. reflexivity.
    - intros q Hv. rewrite !Hs.
      rewrite (squash_drop_spaces_valid caseTables _ Hmap Hv).
      reflexivity. }
  assert (Hf : forall A (searcher : list A -> Searcher) field,
    (forall l input index,
       searcher l input index
       = option_map (fun x => Contains (squash (field x)) (squash input))
                    (nth_error l index)) ->
    searchesField searcher field).
  { intros A searcher field Hs l index x Hx.
    split; [|split].
    - intros input. rewrite Hs, Hx. reflexivity.
    - intros Hv. rewrite Hs, Hx. cbn [option_map].
      rewrite (squash_drop_spaces_valid caseTables _ Hmap Hv), Contains_refl.
      reflexivity.
    - intros q Hv. rewrite !Hs.
      rewrite (squash_drop_spaces_valid caseTables _ Hmap Hv).
      reflexivity. }
  repeat apply conj;
    try (apply Hf; intros l; compares l);
    try (apply Hq; intros l; compares l).
  - vm_compute. reflexivity.
  - vm_compute. reflexivity.
Qed.
End Program.

(* ================================================================= *)
(** ** The properties at work *)

(** The user presses Ctrl-C at the root menu: the first transition
    returns the error and [Run] ends with it. *)
Lemma Run_ends_exactly_on_error_witness :
  Run noCaseMapping 1 theRunner Background false
      (scriptedWorld Interrupted [] 24)
  = Some (Ok (Some promptui_ErrInterrupt) (cancelledAtRoot noCaseMapping))
  /\
  exists k e w',
    k < 1 /\
    transition noCaseMapping k Background theRunner
               (scriptedWorld Interrupted [] 24)
    = Some (Ok (None, Some e) w') /\
    Ok (Some promptui_ErrInterrupt) (cancelledAtRoot noCaseMapping)
    = Ok (Some e) w'.
Proof.
  split.
  - apply (proj2 (Run_ends_exactly_on_error noCaseMapping 1 theRunner
                    Background false (scriptedWorld Interrupted [] 24))
                 0 None promptui_ErrInterrupt
                 (cancelledAtRoot noCaseMapping)).
    + lia.
    + reflexivity.
  - apply (proj1 (Run_ends_exactly_on_error noCaseMapping 1 theRunner
                    Background false (scriptedWorld Interrupted [] 24))).
    reflexivity.
Defined.

(** Schemas, All with one schema in the database; the user confirms the
    row and presses Ctrl-C at the prompt after it: that prompt is the
    root menu, and the loop returns from it. *)
Lemma action_success_bounces_to_root_witness :
  let all := state_Fn (schemaState_all noCaseMapping) in
  let w' := worldOf (call all Background theRunner (quitsAfter 3)) in
  call all Background theRunner (quitsAfter 3) = Ok (None, None) w' /\
  selectError (answerAt w') = Some promptui_ErrInterrupt /\
  loop noCaseMapping 2 Background theRunner (Some all) None (quitsAfter 3)
  = Some (Ok (Some promptui_ErrInterrupt)
             (emit (EvSelect (rootPrompt noCaseMapping w') (answerAt w'))
                   (tick w'))).
Proof.
  intros all w'. split; [reflexivity|]. split; [reflexivity|].
  apply (proj1 (proj2 (action_success_bounces_to_root noCaseMapping))
               all Background theRunner (quitsAfter 3) w'
               promptui_ErrInterrupt 0 None);
    reflexivity.
Defined.

(** Scenario A.  The user goes Explore, Schemas, All, confirms the one
    schema and leaves at the next prompt: the menus shown are, latest
    first, the root menu again, the schemas, and the three menus of the
    path. *)
Example explore_schemas_all_then_root :
  outcome (Run noCaseMapping 5 theRunner Background false (quitsAfter 14))
  = Some (Some promptui_ErrInterrupt,
          ["Options"; "Schemas"; "Schema Options"; "Where too?"; "Options"]).
Proof. vm_compute. reflexivity. Qed.

(** Ctrl-C at the root menu: [selecter], [selectState] and [Run] all
    return [promptui.ErrInterrupt]. *)
Lemma cancel_is_distinguishable_witness :
  let w := scriptedWorld Interrupted [] 24 in
  answerAt w = Interrupted /\
  (exists w',
     selecter "Schemas" [ItemString "back"] None
              (Some plainTemplates) w
     = Ok (Some promptui_ErrInterrupt) w') /\
  (exists w',
     selectState noCaseMapping "Options" (startStates noCaseMapping) w
     = Ok (None, Some promptui_ErrInterrupt) w') /\
  (exists w',
     Run noCaseMapping 1 theRunner Background false w
     = Some (Ok (Some promptui_ErrInterrupt) w')) /\
  Run noCaseMapping 1 theRunner Background false w
  = Some (Ok (Some promptui_ErrInterrupt) (cancelledAtRoot noCaseMapping)) /\
  (promptui_ErrInterrupt = promptui_ErrInterrupt <->
   exists sel,
     lastCall (trace (cancelledAtRoot noCaseMapping))
     = Some (EvSelect sel Interrupted)).
Proof.
  intros w. split; [reflexivity|].
  pose proof (cancel_is_distinguishable noCaseMapping)
    as (_ & _ & Hsel & Hmenu & Hroot & Hany & Hiff).
  split; [|split; [|split; [|split]]].
  - destruct (Hsel "Schemas" [ItemString "back"] None (Some plainTemplates) w)
      as [w' [_ H]].
    exists w'. apply H. reflexivity.
  - apply (Hmenu "Options" (exploreState noCaseMapping)
                 [playgroundState] w).
    reflexivity.
  - apply (Hroot 0 theRunner Background false w). reflexivity.
  - apply (Hany 1 theRunner Background false w 0
                (state_Fn (startState noCaseMapping)) w None
                (Some promptui_ErrInterrupt)
                (cancelledAtRoot noCaseMapping)
                (menuPrompt noCaseMapping "Options"
                            (startStates noCaseMapping) w)).
    + reflexivity.
    + reflexivity.
    + cbn. lia.
    + reflexivity.
    + lia.
  - apply (Hiff 1 theRunner Background false w). reflexivity.
Defined.

(** C8 as stated fails in three ways.  A tab is white space and is not
    dropped: the entry "Table<TAB>Count" is not found by "TableCount".
    The owner of a schema is shown and not searched: the schema
    "my schema" of bob, shown as "my schema (bob)", is not found by
    "myschema(bob)".  And a key that is not valid UTF-8 is not found by
    what is left of it without its spaces: in the bytes C3 20 A9 the
    space keeps two broken bytes apart, which [ToLower] replaces one by
    one, and without it they are the letter U+00E9. *)
Lemma searcher_keeps_tabs_owners_and_broken_bytes :
  selectState_searcher noCaseMapping
    [ {| state_Name := "Table" ++ ht ++ "Count";
         state_Fn := state_Fn playgroundState |} ]
    "TableCount" 0
  = Some false
  /\
  Schemas_searcher noCaseMapping
    [ mkSchema "my schema" "bob" "postgres" ] "myschema(bob)" 0
  = Some false
  /\
  selectState_searcher mapToLower
    [ {| state_Name := bytes [195; 32; 169];
         state_Fn := state_Fn playgroundState |} ]
    (ReplaceByte (bytes [195; 32; 169]) space "") 0
  = Some false.
Proof. repeat split; vm_compute; reflexivity. Qed.

(** A table of a schema with an umlaut: the table is found by schema,
    dot and name without the space, and the schema by its name. *)
Lemma searcher_ignores_case_and_spaces_witness :
  let table := mkPgTable "postgres" "Größen Tabelle" "BASE TABLE" "büro"
                         "16 kB" in
  (forall s, mapToLower s = Map (unicode_ToLower (fun r => r)) s) /\
  ValidString "büro" = true /\
  ValidString "Größen Tabelle" = true /\
  ReplaceByte ("büro" ++ "." ++ "Größen Tabelle") space ""
  = "büro.GrößenTabelle" /\
  Tables_searcher mapToLower [table] "büro.GrößenTabelle" 0 = Some true /\
  Schemas_searcher mapToLower [mkSchema "büro" "bob" "postgres"] "büro" 0
  = Some true.
Proof.
  intros table.
  pose proof (searcher_ignores_case_and_spaces mapToLower (fun r => r)
                (fun s => eq_refl))
    as (_ & _ & Hschemas & Htables & _).
  split; [reflexivity|]. split; [reflexivity|]. split; [reflexivity|].
  split; [reflexivity|]. split.
  - apply (proj1 (proj2 (Htables [table] 0 table eq_refl))); reflexivity.
  - apply (proj1 (proj2 (Hschemas [mkSchema "büro" "bob" "postgres"] 0
                           _ eq_refl))).
    reflexivity.
Defined.

(** Ctrl-C at the root menu: one prompt was shown and nothing erased. *)
Example cancelled_menu_is_not_erased :
  length (prompts (trace (cancelledAtRoot noCaseMapping))) = 1 /\
  erasures (trace (cancelledAtRoot noCaseMapping)) = 0.
Proof. split; reflexivity. Qed.

(** [main] logs the error of a cancelled prompt like any other: it only
    exempts [context.Canceled] and [errFinished]. *)
Remark main_logs_interrupt :
  mainLogs true (Some promptui_ErrInterrupt) = true /\
  mainLogs true (Some context_Canceled) = false /\
  mainLogs true (Some errFinished) = false.
Proof. repeat split. Qed.

(* ================================================================= *)
(** ** The further properties at work *)

(** After Explore was chosen, and after Ctrl-C at the root menu, the
    prompts opened are well formed. *)
Lemma every_prompt_is_wellFormed_witness :
  Forall wellFormed (prompts (trace (exploreOpened noCaseMapping))) /\
  Forall wellFormed (prompts (trace (cancelledAtRoot noCaseMapping))).
Proof.
  split.
  - apply (proj1 (every_prompt_is_wellFormed noCaseMapping theRunner
                    Background (scriptedWorld (Chosen 0) [publicSchema] 24)
                    (Forall_nil _))
                 1 (state_Fn (exploreState noCaseMapping))).
    reflexivity.
  - apply (proj2 (every_prompt_is_wellFormed noCaseMapping theRunner
                    Background (scriptedWorld Interrupted [] 24)
                    (Forall_nil _))
                 1 false
                 (Ok (Some promptui_ErrInterrupt)
                     (cancelledAtRoot noCaseMapping))).
    reflexivity.
Defined.

(** After Explore was chosen one prompt was opened and erased; after
    Ctrl-C at the root menu the one prompt is left. *)
Lemma prompts_are_erased_while_running_witness :
  erasures (trace (exploreOpened noCaseMapping)) + 0
  = 0 + length (prompts (trace (exploreOpened noCaseMapping)))
  /\
  erasures (trace (cancelledAtRoot noCaseMapping)) + 0
  <= 0 + length (prompts (trace (cancelledAtRoot noCaseMapping)))
  <= S (erasures (trace (cancelledAtRoot noCaseMapping)) + 0).
Proof.
  split.
  - apply (proj1 (prompts_are_erased_while_running noCaseMapping theRunner
                    Background (scriptedWorld (Chosen 0) [publicSchema] 24))
                 1 (state_Fn (exploreState noCaseMapping))).
    reflexivity.
  - apply (proj2 (prompts_are_erased_while_running noCaseMapping theRunner
                    Background (scriptedWorld Interrupted [] 24))
                 1 false
                 (Ok (Some promptui_ErrInterrupt)
                     (cancelledAtRoot noCaseMapping))).
    reflexivity.
Defined.

(** A user who only ever presses Ctrl-C gets out. *)
Lemma Run_ends_when_input_closes_witness :
  inputCloses 0 (scriptedWorld Interrupted [] 24) /\
  exists fuel e w',
    Run noCaseMapping fuel theRunner Background false
        (scriptedWorld Interrupted [] 24)
    = Some (Ok (Some e) w').
Proof.
  assert (H : inputCloses 0 (scriptedWorld Interrupted [] 24))
    by (intros c _; discriminate).
  split; [exact H|].
  apply (Run_ends_when_input_closes noCaseMapping theRunner Background false
           (scriptedWorld Interrupted [] 24) 0 H).
Defined.

(** Ctrl-C at the root menu is logged when [debug] is on. *)
Lemma Run_error_is_logged_unless_query_cancelled_witness :
  promptui_ErrInterrupt <> errFinished /\
  (promptui_ErrInterrupt = context_Canceled <->
   exists ctx' q,
     lastCall (trace (cancelledAtRoot noCaseMapping))
     = Some (EvQuery ctx' q QueryCanceled))
  /\
  mainLogs true (Some promptui_ErrInterrupt)
  = negb (error_eqb promptui_ErrInterrupt context_Canceled) /\
  mainLogs false (Some promptui_ErrInterrupt) = false.
Proof.
  apply (Run_error_is_logged_unless_query_cancelled noCaseMapping 1
           theRunner Background false (scriptedWorld Interrupted [] 24)
           promptui_ErrInterrupt (cancelledAtRoot noCaseMapping)).
  reflexivity.
Defined.

(** Schemas against a database that refuses the query. *)
Lemma failed_query_ends_the_run_witness :
  exists w',
    loop noCaseMapping 1 Background theRunner
         (Some (action (Schemas noCaseMapping))) None refusingDatabase
    = Some (Ok (Some (driver_Error "connection refused")) w') /\
    prompts (trace w') = prompts (trace refusingDatabase) /\
    erasures (trace w') = erasures (trace refusingDatabase) /\
    length (trace w') = S (length (trace refusingDatabase)).
Proof.
  apply (failed_query_ends_the_run noCaseMapping (Schemas noCaseMapping) 0
           Background theRunner None refusingDatabase).
  - unfold providers. cbn [In]. left. reflexivity.
  - reflexivity.
Defined.

(** [Schemas] queries with the timeout, [Views] without. *)
Lemma only_four_queries_have_a_timeout_witness :
  queryContexts
    (trace (worldOf (Schemas noCaseMapping theRunner Background
                             (scriptedWorld (Chosen 0) [publicSchema] 24))))
  = [WithTimeout Background 5]
  /\
  queryContexts
    (trace (worldOf (Views noCaseMapping theRunner Background
                           (scriptedWorld (Chosen 0) [publicSchema] 24))))
  = [Background].
Proof.
  split.
  - apply (proj1 (only_four_queries_have_a_timeout noCaseMapping theRunner
                    Background (scriptedWorld (Chosen 0) [publicSchema] 24))
                 (Schemas noCaseMapping)).
    unfold timedProviders. cbn [In]. left. reflexivity.
  - apply (proj2 (only_four_queries_have_a_timeout noCaseMapping theRunner
                    Background (scriptedWorld (Chosen 0) [publicSchema] 24))
                 (Views noCaseMapping)).
    unfold untimedProviders. cbn [In]. left. reflexivity.
Defined.

(** No materialized views in the database: the placeholder is shown. *)
Lemma views_show_rows_or_the_placeholder_witness :
  map sel_Items
    (prompts (trace (worldOf
       (MaterializedViews noCaseMapping theRunner Background
                          (scriptedWorld (Chosen 0) [] 24)))))
  = [[ItemView backView]].
Proof.
  apply (views_show_rows_or_the_placeholder noCaseMapping
           (MaterializedViews noCaseMapping) theRunner Background
           (scriptedWorld (Chosen 0) [] 24) []).
  - cbn [In]. right. left. reflexivity.
  - reflexivity.
Defined.

(** The cursor on the second entry of the root menu gives PlayGround. *)
Lemma selectState_returns_the_chosen_child_witness :
  exists w',
    selectState noCaseMapping "Options" (startStates noCaseMapping)
                (scriptedWorld (Chosen 1) [] 24)
    = Ok (Some (state_Fn playgroundState), None) w' /\
    prompts (trace w')
    = menuPrompt noCaseMapping "Options" (startStates noCaseMapping)
                 (scriptedWorld (Chosen 1) [] 24)
      :: prompts (trace (scriptedWorld (Chosen 1) [] 24)) /\
    erasures (trace w') = S (erasures (trace (scriptedWorld (Chosen 1) [] 24))).
Proof.
  apply (selectState_returns_the_chosen_child noCaseMapping "Options"
           (startStates noCaseMapping) (scriptedWorld (Chosen 1) [] 24)
           1 playgroundState).
  - reflexivity.
  - reflexivity.
Defined.

(** "Table Count Per Schema" is found by "tablecount", hence by "table"
    and by "count". *)
Lemma longer_query_only_narrows_witness :
  selectState_searcher noCaseMapping (statStates noCaseMapping) "table" 0
  = Some true /\
  selectState_searcher noCaseMapping (statStates noCaseMapping) "count" 0
  = Some true.
Proof.
  apply (proj1 (longer_query_only_narrows noCaseMapping)
               (statStates noCaseMapping) "table" "count" 0).
  - reflexivity.
  - reflexivity.
  - reflexivity.
Defined.

(** "Table Count" asks the same as "table count", "TableCount",
    " Table Count" and "Table Count ". *)
Lemma query_case_and_spaces_do_not_count_witness :
  let s := selectState_searcher noCaseMapping (statStates noCaseMapping) in
  s (ToLower noCaseMapping "Table Count") 0 = s "Table Count" 0 /\
  s (ReplaceByte "Table Count" space "") 0 = s "Table Count" 0 /\
  s (" " ++ "Table Count") 0 = s "Table Count" 0 /\
  s ("Table Count" ++ " ") 0 = s "Table Count" 0.
Proof.
  apply (proj1 (query_case_and_spaces_do_not_count noCaseMapping)
               (statStates noCaseMapping) "Table Count" 0).
  reflexivity.
Defined.

(** A profile with only a name gives the empty connection string. *)
Lemma DBConnection_empty_iff_witness : DBConnection blankProfile = "".
Proof.
  apply (proj2 (proj1 (DBConnection_empty_iff blankProfile))).
  repeat split.
Defined.

(** The connection string of a full profile. *)
Lemma DBConnection_has_every_set_field_witness :
  Contains (DBConnection fullProfile) "user='postgres'" = true /\
  Contains (DBConnection fullProfile) "sslmode=disable" = true /\
  DBConnection fullProfile
  = "user='postgres' password='secret' dbname='shop' port='5433' sslmode=disable".
Proof.
  split; [|split].
  - apply (proj1 (DBConnection_has_every_set_field fullProfile)).
    reflexivity.
  - apply (proj1 (proj2 (proj2 (proj2 (proj2
             (DBConnection_has_every_set_field fullProfile)))))).
    reflexivity.
  - apply (proj2 (proj2 (proj2 (proj2 (proj2
             (DBConnection_has_every_set_field fullProfile))))));
      reflexivity.
Defined.

(** Describing the table "orders" makes one query and shows nothing. *)
Lemma DescribeTable_checks_the_name_first_witness :
  exists q,
    DescribeTable theRunner Background "orders"
                  (scriptedWorld (Chosen 0) [] 24)
    = Ok None
         (emit (EvQuery Background q (Rows []))
               (scriptedWorld (Chosen 0) [] 24)).
Proof.
  apply (proj2 (DescribeTable_checks_the_name_first theRunner Background
                  (scriptedWorld (Chosen 0) [] 24)) "orders").
  discriminate.
Defined.

(** On a terminal of 24 rows a menu is given the size 20. *)
Lemma selectSize_at_most_rows_less_four_witness :
  exists size,
    selectSize (Some plainTemplates) (scriptedWorld (Chosen 0) [] 24)
    = Ok size (tick (scriptedWorld (Chosen 0) [] 24)) /\
    (size <= 20)%Z /\ size = 20%Z.
Proof.
  destruct (selectSize_at_most_rows_less_four (Some plainTemplates)
              (scriptedWorld (Chosen 0) [] 24) 80 24 eq_refl)
    as (size & Hsel & Hle & Heq).
  - lia.
  - intros t Ht. inversion Ht. reflexivity.
  - exists size. split; [exact Hsel|]. split; [exact Hle|].
    apply (Heq plainTemplates eq_refl); [lia | reflexivity].
Defined.
